(** * Gallery page generator: extraction, directory scan and rendering

    A shallow embedding of [generate_gallery.py] (class [GalleryGenerator]
    and [main]) and the properties of its extraction, scan, rendering and
    page writing steps.

    Python values are modelled as follows.
    - A [str] is a list of Unicode code points ([pystr]); a file opened in
      text mode with [encoding='utf-8'] yields such a list.
    - [re.search] is a backtracking matcher over the two patterns of the
      source, with the priorities of the [re] module (alternatives left to
      right, greedy repetition longest first, lazy repetition shortest
      first, leftmost start position).
    - The file system is a listing of names per category directory with a
      read outcome per name; the output directory is a finite map from file
      names to contents; [print] appends an event to a log. *)

From Stdlib Require Import NArith List String Ascii Lia Bool.
From Stdlib Require Import DecimalNat.
From stdpp Require Import base decidable list sorting gmap.

Local Open Scope N_scope.

(* ================================================================== *)
(** * Python strings *)
(* ================================================================== *)

Module PyStr.

(** A string is a sequence of code points. *)
Definition pystr : Type := list N.

(** ** Literals

    [py] decodes the UTF-8 bytes of a Rocq string literal into code
    points, so that literals of the source can be written as they are. *)

Definition cont (b : N) : N := N.land b 63.

Fixpoint utf8_decode (bs : list N) : pystr :=
  match bs with
  | [] => []
  | b0 :: r0 =>
      if b0 <? 128 then b0 :: utf8_decode r0
      else if b0 <? 224 then
        match r0 with
        | b1 :: r1 =>
            (N.shiftl (N.land b0 31) 6 + cont b1) :: utf8_decode r1
        | [] => [b0]
        end
      else if b0 <? 240 then
        match r0 with
        | b1 :: b2 :: r2 =>
            (N.shiftl (N.land b0 15) 12 + N.shiftl (cont b1) 6 + cont b2)
              :: utf8_decode r2
        | _ => [b0]
        end
      else
        match r0 with
        | b1 :: b2 :: b3 :: r3 =>
            (N.shiftl (N.land b0 7) 18 + N.shiftl (cont b1) 12
             + N.shiftl (cont b2) 6 + cont b3) :: utf8_decode r3
        | _ => [b0]
        end
  end.

Definition py (s : string) : pystr :=
  utf8_decode (map N_of_ascii (list_ascii_of_string s)).

(** In the page templates the character [~] (which the source never uses)
    stands for the double quote. *)
Definition tpl (s : string) : pystr :=
  map (fun c => if c =? 126 then 34 else c) (py s).

Definition NL : N := 10.
Definition HASH : N := 35.

(** ** Whitespace: [str.isspace], the class [\s] of [re] on [str] patterns
    and the characters removed by [str.strip()] are the same set. *)
Definition isspace (c : N) : bool :=
  ((9 <=? c) && (c <=? 13)) || ((28 <=? c) && (c <=? 32))
  || (c =? 133) || (c =? 160) || (c =? 5760)
  || ((8192 <=? c) && (c <=? 8202))
  || (c =? 8232) || (c =? 8233) || (c =? 8239) || (c =? 8287)
  || (c =? 12288).

(** ** [str.strip()] *)
Fixpoint lstrip (s : pystr) : pystr :=
  match s with
  | c :: s' => if isspace c then lstrip s' else s
  | [] => []
  end.

Fixpoint rstrip (s : pystr) : pystr :=
  match s with
  | [] => []
  | c :: s' =>
      match rstrip s' with
      | [] => if isspace c then [] else [c]
      | r => c :: r
      end
  end.

Definition strip (s : pystr) : pystr := rstrip (lstrip s).

(** ** Prefix, suffix and substring tests ([startswith], [endswith], [in]) *)
Fixpoint startswith (p s : pystr) : bool :=
  match p, s with
  | [], _ => true
  | a :: p', b :: s' => (a =? b) && startswith p' s'
  | _ :: _, [] => false
  end.

Fixpoint contains (needle hay : pystr) : bool :=
  startswith needle hay ||
  match hay with
  | [] => false
  | _ :: hay' => contains needle hay'
  end.

Definition endswith (suffix s : pystr) : bool :=
  startswith (rev suffix) (rev s).

(** ** [str.lower()]

    ASCII letters are folded here.  The lower-case mapping of a code point
    above 127 comes from the interpreter's Unicode tables and may depend
    on the characters around it (final sigma): it is the parameter
    [ulower before c after]. *)
Definition ascii_lower (c : N) : N :=
  if (65 <=? c) && (c <=? 90) then c + 32 else c.

Section Lower.
Variable ulower : pystr -> N -> pystr -> pystr.

Definition lower_char (before : pystr) (c : N) (after : pystr) : pystr :=
  if c <? 128 then [ascii_lower c] else ulower before c after.

Fixpoint lower_from (before s : pystr) : pystr :=
  match s with
  | [] => []
  | c :: s' => lower_char before c s' ++ lower_from (before ++ [c]) s'
  end.

Definition lower (s : pystr) : pystr := lower_from [] s.
End Lower.

(** ** [str.replace] of one character by another *)
Definition replace_char (a b : N) (s : pystr) : pystr :=
  map (fun c => if c =? a then b else c) s.

(** ** [str(n)] for a non-negative integer *)
Fixpoint digits_of_uint (d : Decimal.uint) : pystr :=
  match d with
  | Decimal.Nil => []
  | Decimal.D0 d' => 48 :: digits_of_uint d'
  | Decimal.D1 d' => 49 :: digits_of_uint d'
  | Decimal.D2 d' => 50 :: digits_of_uint d'
  | Decimal.D3 d' => 51 :: digits_of_uint d'
  | Decimal.D4 d' => 52 :: digits_of_uint d'
  | Decimal.D5 d' => 53 :: digits_of_uint d'
  | Decimal.D6 d' => 54 :: digits_of_uint d'
  | Decimal.D7 d' => 55 :: digits_of_uint d'
  | Decimal.D8 d' => 56 :: digits_of_uint d'
  | Decimal.D9 d' => 57 :: digits_of_uint d'
  end.

Definition str_of_nat (n : nat) : pystr := digits_of_uint (Nat.to_uint n).

(** ** Comparison of strings ([<=] on [str]): lexicographic on code points *)
Fixpoint str_leb (a b : pystr) : bool :=
  match a, b with
  | [], _ => true
  | _ :: _, [] => false
  | x :: a', y :: b' => (x <? y) || ((x =? y) && str_leb a' b')
  end.

Definition str_le (a b : pystr) : Prop := str_leb a b = true.

#[global] Instance str_le_dec : RelDecision str_le.
Proof. intros a b. unfold str_le. apply _. Defined.

End PyStr.
Export PyStr.

(* ================================================================== *)
(** * The [re] module, for the patterns of the source *)
(* ================================================================== *)

Module Re.

(** Character classes of the two patterns. *)
Inductive charclass : Type :=
| CSpace   (** [\s] *)
| CDot     (** [.] without [re.DOTALL]: anything but a line break *)
| CAny.    (** [.] under [re.DOTALL] *)

Definition in_class (cl : charclass) (c : N) : bool :=
  match cl with
  | CSpace => isspace c
  | CDot => negb (c =? NL)
  | CAny => true
  end.

(** Pattern syntax.  Repetition is applied to single-character classes
    only, as in the source patterns. *)
Inductive regex : Type :=
| Str (s : pystr)            (** a literal string *)
| Cat (r1 r2 : regex)        (** [r1 r2] *)
| Alt (r1 r2 : regex)        (** [r1|r2] *)
| Star (cl : charclass)      (** [c*], greedy *)
| StarLazy (cl : charclass)  (** [c*?] *)
| PlusLazy (cl : charclass)  (** [c+?] *)
| Grp (r : regex).           (** [(r)], capturing group 1 *)

(** A match object: the text of group 1, if the group took part. *)
Record match_obj : Type := MatchObj { m_group1 : option pystr }.

Section Matcher.
Context {A : Type}.

Definition orelse (x y : option A) : option A :=
  match x with Some r => Some r | None => y end.

(** Greedy repetition: take as many characters as possible, then give
    them back one at a time until the continuation succeeds. *)
Fixpoint star_greedy (cl : charclass) (s : pystr)
    (k : pystr -> option A) : option A :=
  match s with
  | c :: s' =>
      if in_class cl c then orelse (star_greedy cl s' k) (k s) else k s
  | [] => k []
  end.

(** Lazy repetition: try the continuation first, take one more
    character only when it fails. *)
Fixpoint star_lazy (cl : charclass) (s : pystr)
    (k : pystr -> option A) : option A :=
  orelse (k s)
    match s with
    | c :: s' => if in_class cl c then star_lazy cl s' k else None
    | [] => None
    end.

Fixpoint strip_prefix (p s : pystr) : option pystr :=
  match p, s with
  | [], _ => Some s
  | a :: p', b :: s' => if a =? b then strip_prefix p' s' else None
  | _ :: _, [] => None
  end.

(** Backtracking matcher in continuation-passing style: [run r s g k]
    matches [r] at the start of [s] with current group text [g] and
    hands the rest of the input to [k]. *)
Fixpoint run (r : regex) (s : pystr) (g : option pystr)
    (k : pystr -> option pystr -> option A) : option A :=
  match r with
  | Str p =>
      match strip_prefix p s with
      | Some s' => k s' g
      | None => None
      end
  | Cat r1 r2 => run r1 s g (fun s' g' => run r2 s' g' k)
  | Alt r1 r2 => orelse (run r1 s g k) (run r2 s g k)
  | Star cl => star_greedy cl s (fun s' => k s' g)
  | StarLazy cl => star_lazy cl s (fun s' => k s' g)
  | PlusLazy cl =>
      match s with
      | c :: s' =>
          if in_class cl c then star_lazy cl s' (fun s'' => k s'' g)
          else None
      | [] => None
      end
  | Grp r1 =>
      run r1 s g
        (fun s' _ => k s' (Some (take (length s - length s') s)))
  end.
End Matcher.

(** [pattern.match(s)]: a match anchored at the start of [s]. *)
Definition match_at (r : regex) (s : pystr) : option match_obj :=
  run r s None (fun _ g => Some (MatchObj g)).

(** [re.search(pattern, s)]: the match at the leftmost start position. *)
Fixpoint search (r : regex) (s : pystr) : option match_obj :=
  match match_at r s with
  | Some m => Some m
  | None =>
      match s with
      | [] => None
      | _ :: s' => search r s'
      end
  end.

Fixpoint cat (rs : list regex) : regex :=
  match rs with
  | [] => Str []
  | [r] => r
  | r :: rs' => Cat r (cat rs')
  end.

End Re.
Export Re.

(* ================================================================== *)
(** * The generator *)
(* ================================================================== *)

Module Gallery.

(** ** Literals of the source *)
Definition FENCE : pystr := Eval vm_compute in py "```".
Definition TAG_r : pystr := Eval vm_compute in py "r".
Definition TAG_R : pystr := Eval vm_compute in py "R".
Definition TAG_python : pystr := Eval vm_compute in py "python".
Definition TAG_Python : pystr := Eval vm_compute in py "Python".
Definition FALLBACK : pystr := Eval vm_compute in py "代码示例".
Definition EXT_MD : pystr := Eval vm_compute in py ".md".
Definition EXT_PNG : pystr := Eval vm_compute in py ".png".
Definition EXT_HTML : pystr := Eval vm_compute in py ".html".
Definition DOT : N := 46.
Definition SPACE : N := 32.
Definition HYPHEN : N := 45.

(** ** f-strings: literal text and formatted values, concatenated *)
Inductive fpart : Type :=
| FLit (s : pystr)
| FVal (v : pystr).

Definition fpart_text (p : fpart) : pystr :=
  match p with FLit s => s | FVal v => v end.

Definition fstring (ps : list fpart) : pystr := concat (map fpart_text ps).

(** ** Exceptions, diagnostics and the file system *)
Inductive exn : Type :=
| OSError (msg : pystr)           (** missing file, permission error, ... *)
| UnicodeDecodeError (msg : pystr)
| AttributeError.                 (** [None.strip()] *)

(** A path below the image base directory: category directory and name. *)
Record path : Type := Path { p_dir : pystr; p_name : pystr }.

(** What [print] writes. *)
Inductive diag : Type :=
| WarnUnreadable (p : path) (e : exn)   (** [警告: 无法读取文件 ...] *)
| WarnNoDirectory (dir_name : pystr)    (** [警告: 目录不存在 ...] *)
| WarnNoItems (dir_name : pystr)        (** [警告: 在 ... 中没有找到任何项目] *)
| DoneGenerated (output_filename : pystr)
| DoneCount (n : nat).

(** The input side of the file system: [listdir d] is [None] when the
    category directory [d] does not exist, otherwise the names in it in
    enumeration order; [read_text p] is the outcome of opening [p] in
    text mode and reading it; [can_write f] tells whether creating the
    output directory and opening [f] for writing succeeds. *)
Record filesystem : Type := FileSystem {
  listdir : pystr -> option (list pystr);
  read_text : path -> exn + pystr;
  can_write : pystr -> bool
}.

(** ** Items *)
Record item : Type := Item {
  title : pystr;
  description : pystr;
  image_path : pystr;
  code : pystr
}.

(** ** The two patterns *)

(** [(?:r|R|python|Python)] *)
Definition fence_tags : regex :=
  Alt (Str TAG_r) (Alt (Str TAG_R) (Alt (Str TAG_python) (Str TAG_Python))).

(** [```(?:r|R|python|Python)\s*\n#\s*(.+?)\n] *)
Definition comment_re : regex :=
  cat [ Str FENCE; fence_tags; Star CSpace; Str [NL]; Str [HASH];
        Star CSpace; Grp (PlusLazy CDot); Str [NL] ].

(** [```(?:r|R|python|Python)\s*\n(.*?)\n```] under [re.DOTALL] *)
Definition code_re : regex :=
  cat [ Str FENCE; fence_tags; Star CSpace; Str [NL];
        Grp (StarLazy CAny); Str [NL]; Str FENCE ].

(** [m.group(1).strip()] *)
Definition group1_strip (m : match_obj) : exn + pystr :=
  match m_group1 m with
  | Some g => inr (strip g)
  | None => inl AttributeError
  end.

(** ** Extraction *)

(** The body of the [try] block of [extract_description_from_md] once the
    file has been read. *)
Definition description_of_content (content : pystr) : exn + pystr :=
  match search comment_re content with
  | Some comment_match => group1_strip comment_match
  | None => inr FALLBACK
  end.

Definition extract_description_from_md (fs : filesystem) (md_file_path : path)
    : pystr * list diag :=
  match
    match read_text fs md_file_path with
    | inr content => description_of_content content
    | inl e => inl e
    end
  with
  | inr d => (d, [])
  | inl e => (FALLBACK, [WarnUnreadable md_file_path e])
  end.

(** The body of the [try] block of [extract_code_from_md] once the file
    has been read. *)
Definition code_of_content (content : pystr) : exn + pystr :=
  match search code_re content with
  | Some code_match => group1_strip code_match
  | None => inr []
  end.

Definition extract_code_from_md (fs : filesystem) (md_file_path : path)
    : pystr * list diag :=
  match
    match read_text fs md_file_path with
    | inr content => code_of_content content
    | inl e => inl e
    end
  with
  | inr c => (c, [])
  | inl e => ([], [WarnUnreadable md_file_path e])
  end.

(** ** Directory scan *)

(** [glob('*.md')]: the names that end in [.md] (hidden names included,
    case-sensitive as on POSIX). *)
Definition glob_md (names : list pystr) : list pystr :=
  filter (fun n => Is_true (endswith EXT_MD n)) names.

(** [str.rfind] of one character. *)
Fixpoint rfind_from (c : N) (s : pystr) (pos : nat) : option nat :=
  match s with
  | [] => None
  | x :: s' =>
      match rfind_from c s' (S pos) with
      | Some j => Some j
      | None => if x =? c then Some pos else None
      end
  end.

(** [PurePath.stem]: the name up to its last dot, when that dot is neither
    the first nor the last character; otherwise the whole name. *)
Definition stem (name : pystr) : pystr :=
  match rfind_from DOT name 0 with
  | Some i =>
      if ((0 <? i) && (i <? length name - 1))%nat then take i name else name
  | None => name
  end.

(** [sorted] on the paths of one directory compares their names. *)
Definition sorted (names : list pystr) : list pystr := merge_sort str_le names.

(** One iteration of the loop of [scan_directory]. *)
Definition scan_step (fs : filesystem) (dir_name : pystr) (names : list pystr)
    (acc : list item * list diag) (md_name : pystr) : list item * list diag :=
  let base_name := stem md_name in
  let png_name := base_name ++ EXT_PNG in
  if bool_decide (png_name ∈ names) then
    let md_file := Path dir_name md_name in
    let '(description, out1) := extract_description_from_md fs md_file in
    let '(code, out2) := extract_code_from_md fs md_file in
    (acc.1 ++ [ {| title := base_name;
                   description := description;
                   image_path :=
                     fstring [ FLit (py "../img/"); FVal dir_name;
                               FLit (py "/"); FVal png_name ];
                   code := code |} ],
     acc.2 ++ out1 ++ out2)
  else acc.

Definition scan_directory (fs : filesystem) (dir_name : pystr)
    : list item * list diag :=
  match listdir fs dir_name with
  | None => ([], [WarnNoDirectory dir_name])
  | Some names =>
      fold_left (scan_step fs dir_name names) (sorted (glob_md names)) ([], [])
  end.

(** ** Rendering *)

(** [enumerate(items, start)] *)
Fixpoint enumerate {A : Type} (start : nat) (l : list A) : list (nat * A) :=
  match l with
  | [] => []
  | x :: l' => (start, x) :: enumerate (S start) l'
  end.

(** The card of one item (first loop of [generate_html_content]). *)
Definition card_parts (i : nat) (it : item) : list fpart :=
  [ FLit (tpl "
            <!-- Item ");
    FVal (str_of_nat i);
    FLit (tpl ": ");
    FVal (title it);
    FLit (tpl " -->
            <div class=~gallery-item~>
                <div class=~gallery-image-wrapper~>
                    <img src=~");
    FVal (image_path it);
    FLit (tpl "~ alt=~");
    FVal (title it);
    FLit (tpl "~ class=~gallery-image~>
                    <div class=~gallery-overlay~>
                        <button class=~view-code-btn~ onclick=~openModal('modal-");
    FVal (str_of_nat i);
    FLit (tpl "')~>查看代码</button>
                    </div>
                </div>
                <div class=~gallery-info~>
                    <h3 class=~gallery-item-title~>");
    FVal (title it);
    FLit (tpl "</h3>
                    <p class=~gallery-item-description~>");
    FVal (description it);
    FLit (tpl "</p>
                </div>
            </div>
") ].

(** The detail view of one item (second loop). *)
Definition modal_parts (lang_name lang_code : pystr) (i : nat) (it : item)
    : list fpart :=
  [ FLit (tpl "
    <!-- Modal ");
    FVal (str_of_nat i);
    FLit (tpl ": ");
    FVal (title it);
    FLit (tpl " -->
    <div id=~modal-");
    FVal (str_of_nat i);
    FLit (tpl "~ class=~modal~>
        <div class=~modal-content~>
            <span class=~modal-close~ onclick=~closeModal('modal-");
    FVal (str_of_nat i);
    FLit (tpl "')~>&times;</span>
            <h2>");
    FVal (title it);
    FLit (tpl " - ");
    FVal (lang_name);
    FLit (tpl " Code</h2>
            <pre><code class=~language-");
    FVal (lang_code);
    FLit (tpl "~>");
    FVal (code it);
    FLit (tpl "</code></pre>
            <div class=~modal-image~>
                <img src=~");
    FVal (image_path it);
    FLit (tpl "~ alt=~");
    FVal (title it);
    FLit (tpl "~>
            </div>
        </div>
    </div>
") ].

Definition prism_parts (lang_code : pystr) : list fpart :=
  [ FLit (tpl "https://cdnjs.cloudflare.com/ajax/libs/prism/1.29.0/components/prism-");
    FVal (lang_code);
    FLit (tpl ".min.js") ].

Definition title_parts (lang_name : pystr) : list fpart :=
  [ FVal (lang_name);
    FLit (tpl " Code Gallery") ].

(** The page skeleton. *)
Definition page_parts (page_title gallery_items_html modals_html
    prism_lang_component : pystr) : list fpart :=
  [ FLit (tpl "<!DOCTYPE html>
<html lang=~zh-CN~>
<head>
    <meta charset=~UTF-8~>
    <meta name=~viewport~ content=~width=device-width, initial-scale=1.0~>
    <title>");
    FVal (page_title);
    FLit (tpl "</title>
    <link rel=~stylesheet~ href=~../css/styles.css~>
    <link rel=~stylesheet~ href=~../css/gallery.css~>
    <link rel=~stylesheet~ href=~https://cdnjs.cloudflare.com/ajax/libs/prism/1.29.0/themes/prism-tomorrow.min.css~>
</head>
<body class=~dark~>
    <!-- Background Canvas -->
    <canvas id=~background-canvas~></canvas>

    <!-- Top navigation -->
    <nav class=~top-nav fade-in~>
        <a href=~../index.html~>Home</a>
        <a href=~introduction.html~>Introduction</a>
        <a href=~r-code.html~>R code</a>
        <a href=~python-code.html~>Python code</a>
        <a href=~other-code.html~>Other code</a>
    </nav>

    <!-- Main content -->
    <main class=~gallery-content fade-in~>
        <h1 class=~gallery-title~>");
    FVal (page_title);
    FLit (tpl "</h1>
        
        <div class=~gallery-grid~>
");
    FVal (gallery_items_html);
    FLit (tpl "
        </div>
    </main>

    <!-- Footer -->
    <footer class=~footer fade-in~>
        <div class=~container~>
            <div class=~footer-content~>
                <div class=~footer-section~>
                    <h4>代码空间</h4>
                    <p>提供简洁美观的代码。</p>
                    <div class=~footer-social~>
                        <a href=~https://www.webofscience.com/wos/author/record/491521~ class=~social-link~>Obsidian</a>
                        <a href=~https://www.webofscience.com/wos/author/record/491521~ class=~social-link~>Web of Science</a>
                        <a href=~https://scholar.google.com/citations?user=FLRq3GEAAAAJ&hl=zh-TW&oi=sra~ class=~social-link~>Google Scholar</a>
                        <a href=~https://www.researchgate.net/profile/Guanglin-He-heguanglin-2/research~ class=~social-link~>Research Gate</a>
                    </div>
                </div>
                <div class=~footer-section~>
                    <h4>联系我们</h4>
                    <div class=~contact-info~>
                        <p>📧 gianthuihui@gmail.com</p>
                    </div>
                </div>
            </div>
            <div class=~footer-bottom~>
                <p><a href=~https://beian.miit.gov.cn/~ target=~_blank~ rel=~noopener noreferrer~>蜀ICP备2025140770号-3</a> &copy; </p>
            </div>
        </div>
    </footer>

    <!-- Modals for code display -->
");
    FVal (modals_html);
    FLit (tpl "

    <script src=~../js/page-load.js~></script>
    <script src=~../js/background.js~></script>
    <script src=~../js/modal.js~></script>
    <script src=~https://cdnjs.cloudflare.com/ajax/libs/prism/1.29.0/prism.min.js~></script>
    <script src=~");
    FVal (prism_lang_component);
    FLit (tpl "~></script>
</body>
</html>
") ].

Section Generator.
(** Lower-case mapping of the code points above 127. *)
Variable ulower : pystr -> N -> pystr -> pystr.

Definition detect_language (dir_name : pystr) : pystr * pystr :=
  let dir_lower := lower ulower dir_name in
  if contains (py "r code") dir_lower || contains (py "r-code") dir_lower then
    (py "R", py "r")
  else if contains (py "python") dir_lower then
    (py "Python", py "python")
  else if contains (py "javascript") dir_lower || contains (py "js") dir_lower
  then (py "JavaScript", py "javascript")
  else (py "Code", py "plaintext").

Definition gallery_items_of (items : list item) : pystr :=
  fold_left (fun acc '(i, it) => acc ++ fstring (card_parts i it))
    (enumerate 1 items) [].

Definition modals_of (lang_name lang_code : pystr) (items : list item) : pystr :=
  fold_left
    (fun acc '(i, it) => acc ++ fstring (modal_parts lang_name lang_code i it))
    (enumerate 1 items) [].

Definition generate_html_content (dir_name : pystr) (items : list item) : pystr :=
  let '(lang_name, lang_code) := detect_language dir_name in
  let page_title := fstring (title_parts lang_name) in
  let gallery_items_html := gallery_items_of items in
  let modals_html := modals_of lang_name lang_code items in
  let prism_lang_component := fstring (prism_parts lang_code) in
  fstring (page_parts page_title gallery_items_html modals_html
             prism_lang_component).

(** The outcome of [generate_page]: the exception that left it, if any,
    the files of the output directory and what was printed. *)
Record page_result : Type := PageResult {
  raised : option exn;
  pages : gmap pystr pystr;
  printed : list diag
}.

Definition generate_page (fs : filesystem) (pages0 : gmap pystr pystr)
    (dir_name : pystr) (output_filename : option pystr) : page_result :=
  let '(items, out) := scan_directory fs dir_name in
  match items with
  | [] => PageResult None pages0 (out ++ [WarnNoItems dir_name])
  | _ :: _ =>
      let html_content := generate_html_content dir_name items in
      let output_filename :=
        match output_filename with
        | Some f => f
        | None =>
            replace_char SPACE HYPHEN (lower ulower dir_name) ++ EXT_HTML
        end in
      if can_write fs output_filename then
        PageResult None (<[output_filename := html_content]> pages0)
          (out ++ [DoneGenerated output_filename; DoneCount (length items)])
      else
        PageResult (Some (OSError output_filename)) pages0 out
  end.

End Generator.

End Gallery.
Export Gallery.

(* ================================================================== *)
(** * The entry point *)
(* ================================================================== *)

Module Entry.

(** What a run prints: the two banners of [main] and, between them, the
    lines of [generate_page]. *)
Inductive main_line : Type :=
| Starting              (** [开始生成画廊页面...] *)
| Line (g : diag)
| AllDone.              (** [所有页面生成完成！] *)

(** The outcome of [main]: the exception that left it, if any, the files
    of the output directory and what was printed. *)
Record main_result : Type := MainResult {
  m_raised : option exn;
  m_pages : gmap pystr pystr;
  m_printed : list main_line
}.

Definition R_CODE : pystr := Eval vm_compute in py "R code".
Definition R_CODE_HTML : pystr := Eval vm_compute in py "r-code.html".
Definition PYTHON_CODE : pystr := Eval vm_compute in py "Python code".
Definition PYTHON_CODE_HTML : pystr := Eval vm_compute in py "python-code.html".

Section Main.
Variable ulower : pystr -> N -> pystr -> pystr.

(** [main]: the page of [R code], then the page of [Python code] when
    that directory exists.  An exception that leaves [generate_page]
    leaves [main]. *)
Definition main (fs : filesystem) (pages0 : gmap pystr pystr) : main_result :=
  let out0 := [Starting] in
  let r1 := generate_page ulower fs pages0 R_CODE (Some R_CODE_HTML) in
  let out1 := out0 ++ map Line (printed r1) in
  match raised r1 with
  | Some e => MainResult (Some e) (pages r1) out1
  | None =>
      match listdir fs PYTHON_CODE with
      | Some _ =>
          let r2 :=
            generate_page ulower fs (pages r1) PYTHON_CODE
              (Some PYTHON_CODE_HTML) in
          let out2 := out1 ++ map Line (printed r2) in
          match raised r2 with
          | Some e => MainResult (Some e) (pages r2) out2
          | None => MainResult None (pages r2) (out2 ++ [AllDone])
          end
      | None => MainResult None (pages r1) (out1 ++ [AllDone])
      end
  end.

End Main.

End Entry.
Export Entry.
(*@@NOTIONS*)
(** Further notions for the statements on the page. *)
Module PageNotions.

(** The text of a trigger up to its identifier. *)
Definition TRIGGER_OPEN : pystr :=
  Eval vm_compute in
    tpl "<button class=~view-code-btn~ onclick=~openModal('modal-".

(** The texts that follow the identifier in a trigger and in the opening
    tag of a detail view. *)
Definition TRIGGER_CLOSE : pystr := Eval vm_compute in tpl "')~>".
Definition MODAL_CLOSE : pystr := Eval vm_compute in tpl "~ class=~modal~>".

Definition isdigit (c : N) : bool := (48 <=? c) && (c <=? 57).

(** The identifier [i] is one of the [n] identifiers counted from 1. *)
Definition is_identifier (n i : nat) : bool :=
  (1 <=? i)%nat && (i <=? n)%nat.

(** The part at position [k] of an f-string ends in [h], the next part
    is a value and the part after it begins with [c]: the value. *)
Definition value_between (h c : pystr) (ps : list fpart) (k : nat)
    : option pystr :=
  match ps !! k, ps !! S k, ps !! S (S k) with
  | Some (FLit l), Some (FVal v), Some (FLit l') =>
      if endswith h l && startswith c l' then Some v else None
  | _, _, _ => None
  end.

End PageNotions.
Export PageNotions.

(* ================================================================== *)
(** * The specification's notions *)
(* ================================================================== *)

(** The notions in which the properties are stated: those that follow
    the words of the specification, and those that describe texts and
    directories.  None of them is used by the generator. *)
Module Spec.

(** The lines of a text, split at line breaks. *)
Fixpoint split_lines (s : pystr) : list pystr :=
  match s with
  | [] => [[]]
  | c :: s' =>
      if c =? NL then [] :: split_lines s'
      else
        match split_lines s' with
        | l :: ls => (c :: l) :: ls
        | [] => [[c]]
        end
  end.

Fixpoint join_lines (ls : list pystr) : pystr :=
  match ls with
  | [] => []
  | [l] => l
  | l :: ls' => l ++ NL :: join_lines ls'
  end.

Definition pystr_eqb (a b : pystr) : bool := bool_decide (a = b).

(** The four spellings of the language tag that the patterns list. *)
Definition listed_tags : list pystr := [TAG_r; TAG_R; TAG_python; TAG_Python].

Definition listed_tag (tag : pystr) : bool :=
  existsb (pystr_eqb tag) listed_tags.

(** Any upper/lower-case spelling of [r] or [python]. *)
Definition case_variant_tag (tag : pystr) : bool :=
  existsb (pystr_eqb (map ascii_lower tag)) [TAG_r; TAG_python].

(** A line opens a fenced block when it is the fence, a recognized tag
    and nothing but trailing whitespace. *)
Definition opening_line (recognized : pystr -> bool) (line : pystr) : bool :=
  match strip_prefix FENCE line with
  | Some info => recognized (rstrip info)
  | None => false
  end.

(** The lines that follow the first opening line. *)
Fixpoint after_first_opening (recognized : pystr -> bool) (lines : list pystr)
    : option (list pystr) :=
  match lines with
  | [] => None
  | l :: ls =>
      if opening_line recognized l then Some ls
      else after_first_opening recognized ls
  end.

(** The lines up to the closing fence (a line that starts with the
    fence); [None] when the block is not closed. *)
Fixpoint until_closing (lines : list pystr) : option (list pystr) :=
  match lines with
  | [] => None
  | l :: ls =>
      if startswith FENCE l then Some []
      else option_map (cons l) (until_closing ls)
  end.

(** The body of the first matching fenced block, as a list of lines. *)
Definition first_block (recognized : pystr -> bool) (content : pystr)
    : option (list pystr) :=
  match after_first_opening recognized (split_lines content) with
  | Some ls => until_closing ls
  | None => None
  end.

(** The description the specification asks for: the first line of the
    first matching block without its comment marker and surrounding
    whitespace when it begins with the marker, the fallback otherwise. *)
Definition spec_description (recognized : pystr -> bool) (content : pystr)
    : pystr :=
  match first_block recognized content with
  | Some ((c :: line) :: _) => if c =? HASH then strip line else FALLBACK
  | _ => FALLBACK
  end.

(** The code the specification asks for: the trimmed body of the first
    matching block, the empty string when there is none. *)
Definition spec_code (recognized : pystr -> bool) (content : pystr) : pystr :=
  match first_block recognized content with
  | Some body => strip (join_lines body)
  | None => []
  end.

(** ** Opening fences inside a text *)

(** [s] begins with optional whitespace that ends in a line break. *)
Fixpoint ws_then_nl (s : pystr) : bool :=
  match s with
  | c :: s' => (c =? NL) || (isspace c && ws_then_nl s')
  | [] => false
  end.

(** [s] begins with an opening fence: the fence, one of the listed tags,
    optional whitespace and a line break. *)
Definition opens_fence (s : pystr) : bool :=
  match strip_prefix FENCE s with
  | Some s1 =>
      existsb
        (fun tag =>
           match strip_prefix tag s1 with
           | Some s2 => ws_then_nl s2
           | None => false
           end)
        listed_tags
  | None => false
  end.

(** No opening fence begins inside [pre] when [pre] is followed by
    [rest]. *)
Fixpoint no_fence_in (pre rest : pystr) : bool :=
  match pre with
  | [] => true
  | _ :: pre' => negb (opens_fence (pre ++ rest)) && no_fence_in pre' rest
  end.

(** No line break of [body] is followed by the fence. *)
Fixpoint no_fence_line (body : pystr) : bool :=
  match body with
  | [] => true
  | c :: body' =>
      negb ((c =? NL) && startswith FENCE body') && no_fence_line body'
  end.

(** No line of [body] starts with the fence. *)
Definition fence_free_lines (body : pystr) : bool :=
  negb (startswith FENCE body) && no_fence_line body.

(** Whitespace other than a line break. *)
Definition blank (w : pystr) : bool :=
  forallb isspace w && forallb (in_class CDot) w.

(** Number of positions of [s] at which [p] occurs. *)
Fixpoint count_sub (p s : pystr) : nat :=
  (if startswith p s then 1 else 0)%nat +
  match s with
  | [] => 0%nat
  | _ :: s' => count_sub p s'
  end.

(** ** Documentation files and their items *)

(** The documentation file [md_name] has its image among [names]. *)
Definition has_image (names : list pystr) (md_name : pystr) : bool :=
  bool_decide (stem md_name ++ EXT_PNG ∈ names).

(** The item made of the documentation file [md_name]. *)
Definition item_of (fs : filesystem) (dir_name md_name : pystr) : item :=
  {| title := stem md_name;
     description :=
       (extract_description_from_md fs (Path dir_name md_name)).1;
     image_path :=
       fstring [ FLit (py "../img/"); FVal dir_name; FLit (py "/");
                 FVal (stem md_name ++ EXT_PNG) ];
     code := (extract_code_from_md fs (Path dir_name md_name)).1 |}.

(** What the two extractions of [md_name] print. *)
Definition diags_of (fs : filesystem) (dir_name md_name : pystr) : list diag :=
  (extract_description_from_md fs (Path dir_name md_name)).2
  ++ (extract_code_from_md fs (Path dir_name md_name)).2.

(** Occurrences of [p] that begin inside [l] end inside [l], whatever
    follows [l]. *)
Definition self_contained (p l : pystr) : Prop :=
  forall a b x, l = a ++ b -> b <> [] ->
    startswith p (b ++ x) = startswith p b.

(** No end of [l] is a proper beginning of [p]. *)
Fixpoint no_dangling (p l : pystr) : bool :=
  match l with
  | [] => true
  | _ :: l' =>
      negb (startswith l p && (length l <? length p)%nat)
      && no_dangling p l'
  end.

(** ** Counting over the parts of an f-string *)

(** The values at the positions [ks] seen as literal text. *)
Fixpoint literal_at (ks : list nat) (pos : nat) (ps : list fpart)
    : list fpart :=
  match ps with
  | [] => []
  | q :: ps' =>
      (if existsb (Nat.eqb pos) ks then FLit (fpart_text q) else q)
        :: literal_at ks (S pos) ps'
  end.

(** Adjacent literal texts merged into one. *)
Fixpoint fuse (ps : list fpart) : list fpart :=
  match ps with
  | [] => []
  | FLit a :: ps' =>
      match fuse ps' with
      | FLit b :: r => FLit (a ++ b) :: r
      | r => FLit a :: r
      end
  | FVal v :: ps' => FVal v :: fuse ps'
  end.

(** No literal text ends in a proper beginning of [p]. *)
Definition lits_ok (p : pystr) (ps : list fpart) : bool :=
  forallb (fun q => match q with FLit l => no_dangling p l | FVal _ => true end)
    ps.

(** Every value keeps the occurrences of [p] that begin in it. *)
Definition val_ok (p : pystr) (q : fpart) : Prop :=
  match q with FLit _ => True | FVal v => self_contained p v end.

(** Occurrences of [p] in the literal texts and in the values. *)
Fixpoint lit_count (p : pystr) (ps : list fpart) : nat :=
  match ps with
  | [] => 0
  | FLit l :: ps' => count_sub p l + lit_count p ps'
  | FVal _ :: ps' => lit_count p ps'
  end.

Fixpoint val_count (p : pystr) (ps : list fpart) : nat :=
  match ps with
  | [] => 0
  | FLit _ :: ps' => val_count p ps'
  | FVal v :: ps' => count_sub p v + val_count p ps'
  end.

(** [name] contains [kw] up to the case of ASCII letters. *)
Definition contains_ci (kw name : pystr) : bool :=
  contains kw (map ascii_lower name).

Definition is_ascii (s : pystr) : bool := forallb (fun c => c <? 128) s.

(** The language the specification asks for, on the name as it is
    written. *)
Definition spec_language (name : pystr) : pystr * pystr :=
  if contains_ci (py "r code") name || contains_ci (py "r-code") name then
    (py "R", py "r")
  else if contains_ci (py "python") name then
    (py "Python", py "python")
  else if contains_ci (py "javascript") name || contains_ci (py "js") name
  then (py "JavaScript", py "javascript")
  else (py "Code", py "plaintext").

(** The characters of the five keywords, [i] apart. *)
Definition KW_CHARS : pystr := Eval vm_compute in py " -acdehjnoprstvy".
Definition LETTER_i : N := 105.

Definition kw_char (c : N) : bool := existsb (N.eqb c) KW_CHARS.

(** A keyword is made of these characters, an [i] being followed by one
    of them. *)
Fixpoint kw_ok (kw : pystr) : bool :=
  match kw with
  | [] => true
  | c :: kw' =>
      (kw_char c
       || ((c =? LETTER_i)
           && match kw' with c2 :: _ => kw_char c2 | [] => false end))
      && kw_ok kw'
  end.

(** What the lower-case mapping of a code point above 127 may be for the
    keywords to be found in ASCII letters only: not empty, without a
    character of the keywords other than [i], and not ending in [i].
    (The Unicode tables give an ASCII character for two code points
    above 127 only: [i] followed by U+0307 for U+0130, and [k] for
    U+212A.) *)
Definition mapping_ok (e : pystr) : bool :=
  forallb (fun x => negb (kw_char x)) e
  && match last e with
     | Some x => negb (x =? LETTER_i)
     | None => false
     end.

Definition unicode_lower_ok (ulower : pystr -> N -> pystr -> pystr) : Prop :=
  forall before c after, 128 <= c -> mapping_ok (ulower before c after) = true.

(** ** Markup of the page *)

(** The opening tags of a card and of a detail view, the trigger of the
    card with identifier [i] and the opening tag of the detail view with
    identifier [i]. *)
Definition CARD_OPEN : pystr :=
  Eval vm_compute in tpl "<div class=~gallery-item~>".
Definition MODAL_OPEN : pystr :=
  Eval vm_compute in tpl "<div id=~modal-".

Definition trigger_tag (i : nat) : pystr :=
  fstring [ FLit (tpl "<button class=~view-code-btn~ onclick=~openModal('modal-");
            FVal (str_of_nat i); FLit (tpl "')~>") ].

Definition modal_tag (i : nat) : pystr :=
  fstring [ FLit (tpl "<div id=~modal-"); FVal (str_of_nat i);
            FLit (tpl "~ class=~modal~>") ].

(** The beginnings of the opening tags above. *)
Definition TAG_HEADS : list pystr :=
  Eval vm_compute in [py "<div"; py "<button"].

(** [s] begins with one of these, or with the part of one that fits
    into [s]. *)
Definition begins_tag (s : pystr) : bool :=
  existsb (fun h => startswith h s || startswith s h) TAG_HEADS.

(** [p] begins with the beginning of a tag. *)
Definition tag_pattern (p : pystr) : bool :=
  existsb (fun h => startswith h p) TAG_HEADS.

(** The text holds no [<div] and no [<button] and does not end in a
    beginning of one of them: no opening tag of a card or of a detail
    view begins in it. *)
Fixpoint tag_free (s : pystr) : bool :=
  match s with
  | [] => true
  | _ :: s' => negb (begins_tag s) && tag_free s'
  end.

(** No value is the beginning of such a tag. *)
Definition val_tag_free (q : fpart) : Prop :=
  match q with FLit _ => True | FVal v => tag_free v = true end.

(** No field of the item holds the beginning of such a tag. *)
Definition markup_free (it : item) : bool :=
  tag_free (title it) && tag_free (description it)
  && tag_free (image_path it) && tag_free (code it).

End Spec.
Export Spec.

(* ================================================================== *)
(** * Sample inputs *)
(* ================================================================== *)

Module Samples.

(** A file system in which every path reads as [content]. *)
Definition readable (content : pystr) : filesystem :=
  FileSystem (fun _ => None) (fun _ => inr content) (fun _ => true).

(** A file system in which no path can be read. *)
Definition unreadable (e : exn) : filesystem :=
  FileSystem (fun _ => None) (fun _ => inl e) (fun _ => true).

(** A file system with one category directory [d] holding [names]. *)
Definition one_dir (d : pystr) (names : list pystr) (content : pystr)
    : filesystem :=
  FileSystem (fun x => if bool_decide (x = d) then Some names else None)
             (fun _ => inr content) (fun _ => true).

Definition doc : path := Path (py "R code") (py "plot.md").

(** Code points above 127 left as they are, but for the two that the
    Unicode tables map to ASCII letters. *)
Definition ulower_id (before : pystr) (c : N) (after : pystr) : pystr :=
  if c =? 304 then [105; 775] else if c =? 8490 then [107] else [c].

(** A block with a comment line and code. *)
Definition doc_plain : pystr := py "Intro

```Python  
#   hi there  
print(1)
```
".

Definition plain_pre : pystr := py "Intro

".
Definition plain_hws : pystr := py "  ".
Definition plain_line : pystr := py "   hi there  ".
Definition plain_code : pystr := py "print(1)".

(** The first block has no comment line, the second has one. *)
Definition doc_two_blocks : pystr := py "```r
x <- 1
```

```r
# second
y
```
".


(** An empty block followed by another block. *)
Definition doc_empty_block : pystr := py "```r
```

```python
print(1)
```
".

(** A comment marker with nothing but whitespace after it. *)
Definition doc_blank_comment : pystr := py "```r
# 
x <- 1
```
".

Definition doc_blank_comment_last : pystr := py "```r
# 
```".

(** An upper-case tag. *)
Definition doc_upper : pystr := py "```PYTHON
# hi
print(1)
```
".

Definition upper_body : pystr := py "# hi
print(1)".


Definition item_a : item :=
  Item (py "a") (py "first") (py "../img/R code/a.png") (py "x <- 1").
Definition item_b : item :=
  Item (py "b") (py "second") (py "../img/R code/b.png") (py "y <- 2").


(** A directory in which one base name begins another. *)
Definition names_prefix : list pystr :=
  [py "a.md"; py "a.png"; py "a-b.png"; py "a-b.md"; py "c.md"].

(** An item whose description is the opening tag of a card. *)
Definition item_markup : item :=
  Item (py "a") CARD_OPEN (py "../img/R code/a.png") (py "x <- 1").

End Samples.
Export Samples.

(** Further sample inputs. *)
Module MoreSamples.

(** A file system with one category directory [d] holding [names], in
    which no output file can be written. *)
Definition read_only (d : pystr) (names : list pystr) (content : pystr)
    : filesystem :=
  FileSystem (fun x => if bool_decide (x = d) then Some names else None)
             (fun _ => inr content) (fun _ => false).

End MoreSamples.
Export MoreSamples.

(* ================================================================== *)
(** * Properties *)
(* ================================================================== *)

(** ** Facts on the matcher *)

Section ReFacts.
Context {A : Type}.
Implicit Types (s t w : pystr) (k : pystr -> option A).

Lemma strip_prefix_app p s : strip_prefix p (p ++ s) = Some s.
Proof. induction p as [|a p IH]; simpl; [done|]. by rewrite N.eqb_refl. Qed.

Lemma strip_prefix_Some p s s' : strip_prefix p s = Some s' -> s = p ++ s'.
Proof.
  revert s. induction p as [|a p IH]; intros s; simpl.
  - congruence.
  - destruct s as [|b s]; [done|].
    destruct (N.eqb_spec a b) as [->|]; [|done].
    intros H. by rewrite (IH _ H).
Qed.

(** Greedy repetition keeps a success found after a longer run. *)
Lemma star_greedy_prefix cl w s k m :
  forallb (in_class cl) w = true ->
  star_greedy cl s k = Some m ->
  star_greedy cl (w ++ s) k = Some m.
Proof.
  induction w as [|c w IH]; simpl; [done|].
  intros [Hc Hw]%andb_prop Hs. rewrite Hc.
  by rewrite (IH Hw Hs).
Qed.

(** Greedy repetition fails over a run when the continuation fails after
    every length of it. *)
Lemma star_greedy_fail cl w s k :
  (forall a b, w = a ++ b -> k (b ++ s) = None) ->
  star_greedy cl s k = None ->
  star_greedy cl (w ++ s) k = None.
Proof.
  induction w as [|c w IH]; simpl; [done|].
  intros Hk Hs.
  assert (star_greedy cl (w ++ s) k = None) as ->.
  { apply IH; [|done]. intros a b ->. apply (Hk (c :: a)). done. }
  specialize (Hk [] (c :: w) eq_refl). simpl in Hk. rewrite Hk.
  by destruct (in_class cl c).
Qed.

Lemma star_greedy_stop cl c s k :
  in_class cl c = false -> star_greedy cl (c :: s) k = k (c :: s).
Proof. simpl. by intros ->. Qed.

(** Lazy repetition skips a run after no length of which the
    continuation succeeds. *)
Lemma star_lazy_skip cl w s k :
  forallb (in_class cl) w = true ->
  (forall a b, w = a ++ b -> b <> [] -> k (b ++ s) = None) ->
  star_lazy cl (w ++ s) k = star_lazy cl s k.
Proof.
  induction w as [|c w IH]; [done|].
  intros [Hc Hw]%andb_prop Hk.
  change ((c :: w) ++ s) with (c :: (w ++ s)).
  cbn [star_lazy]. rewrite Hc.
  pose proof (Hk [] (c :: w) eq_refl ltac:(done)) as H0.
  simpl in H0. rewrite H0. cbn [orelse].
  apply IH; [done|]. intros a b -> Hb. by apply (Hk (c :: a)).
Qed.

Lemma star_lazy_here cl s k m : k s = Some m -> star_lazy cl s k = Some m.
Proof. intros H. destruct s; simpl; by rewrite H. Qed.

Lemma star_greedy_ws_nl s k m :
  (forall s' m', k s' = Some m' -> exists t, s' = NL :: t) ->
  star_greedy CSpace s k = Some m -> ws_then_nl s = true.
Proof.
  intros Hk. revert m. induction s as [|c s IH]; intros m; simpl.
  - intros [t ?]%Hk. done.
  - destruct (isspace c) eqn:Hc; simpl.
    + destruct (star_greedy CSpace s k) eqn:Hs; simpl.
      * intros _. rewrite (IH _ eq_refl). by rewrite orb_true_r.
      * intros [t [= -> _]]%Hk. done.
    + intros [t [= -> _]]%Hk. done.
Qed.
End ReFacts.

(** ** Facts on the two patterns *)

Section PatternFacts.
Context {A : Type}.
Implicit Types (s t w : pystr) (k : pystr -> option pystr -> option A).

Lemma run_fence_tags_inv s g k (m : A) :
  run fence_tags s g k = Some m ->
  exists tag s', In tag listed_tags /\ strip_prefix tag s = Some s'
                 /\ k s' g = Some m.
Proof.
  unfold fence_tags, listed_tags. cbn [run].
  destruct (strip_prefix TAG_r s) as [s1|] eqn:H1;
    [destruct (k s1 g) eqn:K1|]; cbn [orelse].
  { intros [= <-]. exists TAG_r, s1. simpl. auto 10. }
  all: destruct (strip_prefix TAG_R s) as [s2|] eqn:H2;
    [destruct (k s2 g) eqn:K2|]; cbn [orelse];
    try (intros [= <-]; exists TAG_R, s2; simpl; by auto 10).
  all: destruct (strip_prefix TAG_python s) as [s3|] eqn:H3;
    [destruct (k s3 g) eqn:K3|]; cbn [orelse];
    try (intros [= <-]; exists TAG_python, s3; simpl; by auto 10).
  all: destruct (strip_prefix TAG_Python s) as [s4|] eqn:H4; try done;
    intros K4; exists TAG_Python, s4; simpl; by auto 10.
Qed.

Lemma run_fence_tags_intro tag s g k (m : A) :
  In tag listed_tags -> k s g = Some m ->
  run fence_tags (tag ++ s) g k = Some m.
Proof.
  unfold listed_tags. simpl.
  intros [<-|[<-|[<-|[<-|[]]]]] K; unfold fence_tags; cbn; by rewrite K.
Qed.

Lemma run_space_nl_inv r s g k (m : A) :
  run (Cat (Star CSpace) (Cat (Str [NL]) r)) s g k = Some m ->
  ws_then_nl s = true.
Proof.
  cbn [run]. apply star_greedy_ws_nl.
  intros s' m'. destruct (strip_prefix [NL] s') as [t|] eqn:Hp; [|done].
  intros _. exists t. by apply strip_prefix_Some in Hp.
Qed.
End PatternFacts.

Lemma existsb_In {X} (f : X -> bool) l x : In x l -> f x = true -> existsb f l = true.
Proof. intros. apply existsb_exists. eauto. Qed.

Lemma match_at_opens r s m :
  match_at (Cat (Str FENCE) (Cat fence_tags (Cat (Star CSpace) (Cat (Str [NL]) r)))) s
    = Some m ->
  opens_fence s = true.
Proof.
  unfold match_at, opens_fence. cbn [run].
  destruct (strip_prefix FENCE s) as [s1|]; [|done].
  intros (tag & s2 & Hin & Hp & Hk)%run_fence_tags_inv.
  apply (existsb_In _ _ tag Hin). rewrite Hp.
  by apply (run_space_nl_inv r) in Hk.
Qed.

Lemma comment_re_opens s m : match_at comment_re s = Some m -> opens_fence s = true.
Proof. apply match_at_opens. Qed.

Lemma code_re_opens s m : match_at code_re s = Some m -> opens_fence s = true.
Proof. apply match_at_opens. Qed.

Lemma search_skip r pre rest :
  (forall s m, match_at r s = Some m -> opens_fence s = true) ->
  no_fence_in pre rest = true ->
  search r (pre ++ rest) = search r rest.
Proof.
  intros Hr. induction pre as [|c pre IH]; [done|].
  cbn [no_fence_in]. intros [Hc Hpre]%andb_prop.
  change ((c :: pre) ++ rest) with (c :: (pre ++ rest)) in *.
  cbn [search].
  destruct (match_at r (c :: pre ++ rest)) as [m|] eqn:Hm.
  - apply Hr in Hm. by rewrite Hm in Hc.
  - by apply IH.
Qed.

Lemma search_here r s m : match_at r s = Some m -> search r s = Some m.
Proof. intros H. destruct s; simpl; by rewrite H. Qed.

Lemma search_none r s :
  (forall s m, match_at r s = Some m -> opens_fence s = true) ->
  no_fence_in s [] = true -> search r s = None.
Proof.
  intros Hr Hs. rewrite <- (app_nil_r s). rewrite search_skip; [|done..].
  simpl. destruct (match_at r []) eqn:Hm; [|done].
  apply Hr in Hm. done.
Qed.

Lemma isspace_not_nl c : isspace c = false -> (c =? NL) = false.
Proof. destruct (N.eqb_spec c NL) as [->|]; [|done]. done. Qed.

Lemma strip_prefix_head_ne a x p (s : pystr) :
  (x =? a) = false -> strip_prefix (a :: p) (x :: s) = None.
Proof. intros H. cbn [strip_prefix]. by rewrite N.eqb_sym, H. Qed.

Lemma take_group (g rest : pystr) :
  take (length (g ++ rest) - length rest) (g ++ rest) = g.
Proof.
  rewrite length_app.
  replace (length g + length rest - length rest)%nat with (length g) by lia.
  by rewrite take_app_length.
Qed.

(** The comment pattern at an opening fence whose next line is a comment
    with text. *)
Lemma comment_re_match tag w lead c text post :
  In tag listed_tags ->
  forallb isspace w = true ->
  forallb isspace lead = true ->
  isspace c = false ->
  forallb (in_class CDot) text = true ->
  match_at comment_re
    (FENCE ++ tag ++ w ++ NL :: HASH :: lead ++ c :: text ++ NL :: post)
  = Some (MatchObj (Some (c :: text))).
Proof.
  intros Htag Hw Hlead Hc Htext.
  unfold match_at, comment_re. cbn [cat run].
  rewrite strip_prefix_app. apply run_fence_tags_intro; [done|].
  apply star_greedy_prefix; [done|].
  cbn [star_greedy in_class].
  replace (isspace NL) with true by done.
  replace (isspace HASH) with false by done.
  replace (strip_prefix [NL] (HASH :: lead ++ c :: text ++ NL :: post))
    with (@None pystr) by done.
  cbn [orelse strip_prefix]. rewrite !N.eqb_refl.
  apply star_greedy_prefix; [done|].
  rewrite star_greedy_stop by done.
  rewrite (isspace_not_nl c Hc). cbn [negb].
  rewrite star_lazy_skip; [|done|].
  - apply star_lazy_here. cbn [strip_prefix]. rewrite N.eqb_refl.
    do 3 f_equal.
    apply (take_group (c :: text) (NL :: post)).
  - intros a b -> Hb. destruct b as [|x b]; [done|].
    rewrite forallb_app in Htext. apply andb_prop in Htext as [_ Hb'].
    simpl in Hb'. apply andb_prop in Hb' as [Hx _].
    apply negb_true_iff in Hx.
    cbn beta. change ((x :: b) ++ NL :: post) with (x :: (b ++ NL :: post)).
    cbv beta iota. by rewrite N.eqb_sym, Hx.
Qed.

Lemma strip_prefix_startswith p (s : pystr) :
  startswith p s = false -> strip_prefix p s = None.
Proof.
  revert s. induction p as [|a p IH]; intros [|b s]; simpl; try done.
  destruct (N.eqb_spec a b); simpl; [apply IH|done].
Qed.

Lemma startswith_fence_nl b t :
  startswith FENCE (b ++ NL :: t) = startswith FENCE b.
Proof.
  unfold FENCE.
  by destruct b as [|x1 [|x2 [|x3 b]]]; cbn [app startswith].
Qed.

Lemma no_fence_line_suffix a b :
  no_fence_line (a ++ b) = true -> no_fence_line b = true.
Proof.
  induction a as [|x a IH]; [done|]. simpl.
  intros [_ H]%andb_prop. by apply IH.
Qed.

Lemma forallb_any (g : pystr) : forallb (in_class CAny) g = true.
Proof. by induction g. Qed.

(** The code pattern at an opening fence whose body has text and is
    closed by a fence line. *)
Lemma code_re_match tag w1 w2 c rest post :
  In tag listed_tags ->
  forallb isspace w1 = true ->
  forallb isspace w2 = true ->
  forallb (in_class CDot) w2 = true ->
  isspace c = false ->
  no_fence_line (w2 ++ c :: rest) = true ->
  match_at code_re
    (FENCE ++ tag ++ w1 ++ NL :: (w2 ++ c :: rest) ++ NL :: FENCE ++ post)
  = Some (MatchObj (Some (w2 ++ c :: rest))).
Proof.
  intros Htag Hw1 Hw2 Hnl Hc Hbody.
  unfold match_at, code_re. cbn [cat run].
  rewrite strip_prefix_app. apply run_fence_tags_intro; [done|].
  apply star_greedy_prefix; [done|].
  set (g := w2 ++ c :: rest) in *.
  cbn [star_greedy in_class].
  replace (isspace NL) with true by done.
  match goal with |- orelse ?x _ = _ => assert (x = None) as -> end.
  { subst g. rewrite <- app_assoc, <- app_comm_cons.
    apply star_greedy_fail.
    - intros a [|x b] Hab.
      + cbn [app]. rewrite strip_prefix_head_ne; [done|].
        by apply isspace_not_nl.
      + cbn [app]. rewrite strip_prefix_head_ne; [done|].
        rewrite Hab, forallb_app in Hnl. apply andb_prop in Hnl as [_ Hx].
        simpl in Hx. apply andb_prop in Hx as [Hx _].
        by apply negb_true_iff in Hx.
    - rewrite star_greedy_stop by done.
      cbn [app]. rewrite strip_prefix_head_ne; [done|].
      by apply isspace_not_nl. }
  cbn [orelse strip_prefix]. rewrite N.eqb_refl.
  rewrite star_lazy_skip; [|apply forallb_any|].
  - apply star_lazy_here. cbn [strip_prefix]. rewrite N.eqb_refl.
    rewrite strip_prefix_app. by rewrite (take_group g).
  - intros a [|x b] Hab Hb; [done|]. cbv beta.
    change ((x :: b) ++ NL :: FENCE ++ post)
      with (x :: (b ++ NL :: FENCE ++ post)).
    rewrite Hab in Hbody. apply no_fence_line_suffix in Hbody.
    cbn [no_fence_line] in Hbody. apply andb_prop in Hbody as [Hx _].
    cbn [strip_prefix]. rewrite N.eqb_sym.
    destruct (x =? NL); [|done]. cbn [andb negb] in Hx.
    rewrite strip_prefix_startswith; [done|].
    rewrite startswith_fence_nl. by apply negb_true_iff.
Qed.

(** ** Facts on [strip] *)

Lemma lstrip_split (line : pystr) :
  forallb isspace line = false ->
  exists lead c text,
    line = lead ++ c :: text /\ forallb isspace lead = true
    /\ isspace c = false /\ lstrip line = c :: text.
Proof.
  induction line as [|x line IH]; [done|]. cbn [forallb lstrip].
  destruct (isspace x) eqn:Hx; cbn [andb].
  - intros (lead & c & text & -> & Hl & Hc & Hs)%IH.
    exists (x :: lead), c, text. cbn [forallb]. by rewrite Hx, Hl.
  - intros _. by exists [], x, line.
Qed.

Lemma lstrip_lead (lead : pystr) c text :
  forallb isspace lead = true -> isspace c = false ->
  lstrip (lead ++ c :: text) = c :: text.
Proof.
  intros Hl Hc. induction lead as [|x lead IH]; simpl.
  - by rewrite Hc.
  - simpl in Hl. apply andb_prop in Hl as [-> Hl]. by apply IH.
Qed.

(** A run of whitespace either has no line break or splits at its last
    line break. *)
Lemma last_nl_split (w : pystr) :
  forallb (in_class CDot) w = true \/
  exists w1 w2, w = w1 ++ NL :: w2 /\ forallb (in_class CDot) w2 = true.
Proof.
  induction w as [|x w [IH|(w1 & w2 & -> & IH)]].
  - by left.
  - destruct (N.eqb_spec x NL) as [->|Hx].
    + right. by exists [], w.
    + left. cbn [forallb in_class]. rewrite IH.
      apply N.eqb_neq in Hx. by rewrite Hx.
  - right. by exists (x :: w1), w2.
Qed.

Lemma forallb_app_2 {X} (f : X -> bool) l1 l2 :
  forallb f l1 = true -> forallb f l2 = true -> forallb f (l1 ++ l2) = true.
Proof. intros H1 H2. by rewrite forallb_app, H1, H2. Qed.

(** The text after the opening tag, up to the first character of the
    body that is not whitespace, ends in a line break followed by
    whitespace of one line. *)
Lemma body_split (hws body : pystr) :
  forallb isspace hws = true ->
  forallb isspace body = false ->
  exists w1 w2 c rest,
    hws ++ NL :: body = w1 ++ NL :: w2 ++ c :: rest
    /\ forallb isspace w1 = true /\ forallb isspace w2 = true
    /\ forallb (in_class CDot) w2 = true /\ isspace c = false
    /\ (exists a, body = a ++ w2 ++ c :: rest)
    /\ strip (w2 ++ c :: rest) = strip body.
Proof.
  intros Hh (lead & c & rest & -> & Hl & Hc & Hs)%lstrip_split.
  destruct (last_nl_split lead) as [Hnl|(l1 & l2 & -> & Hnl)].
  - exists hws, lead, c, rest. repeat split; try done.
    by exists [].
  - rewrite forallb_app in Hl. apply andb_prop in Hl as [Hl1 Hl2].
    cbn [forallb] in Hl2. apply andb_prop in Hl2 as [_ Hl2].
    exists (hws ++ NL :: l1), l2, c, rest. repeat split; try done.
    + by rewrite <- !app_assoc.
    + apply forallb_app_2; [done|]. cbn [forallb]. by rewrite Hl1.
    + exists (l1 ++ [NL]). by rewrite <- !app_assoc.
    + unfold strip. by rewrite Hs, (lstrip_lead l2).
Qed.

(** ** Extraction from a readable file *)

Lemma listed_tag_In tag : listed_tag tag = true -> In tag listed_tags.
Proof.
  unfold listed_tag. intros (t & Hin & Ht)%existsb_exists.
  unfold pystr_eqb in Ht. apply bool_decide_eq_true in Ht. by subst.
Qed.

Lemma blank_inv w :
  blank w = true -> forallb isspace w = true /\ forallb (in_class CDot) w = true.
Proof. unfold blank. apply andb_prop. Qed.

Lemma description_found pre s g :
  no_fence_in pre s = true ->
  match_at comment_re s = Some (MatchObj (Some g)) ->
  description_of_content (pre ++ s) = inr (strip g).
Proof.
  intros Hpre Hm. unfold description_of_content.
  rewrite (search_skip _ _ _ comment_re_opens Hpre).
  by rewrite (search_here _ _ _ Hm).
Qed.

Lemma description_none content :
  no_fence_in content [] = true ->
  description_of_content content = inr FALLBACK.
Proof.
  intros H. unfold description_of_content.
  by rewrite (search_none _ _ comment_re_opens H).
Qed.

Lemma code_found pre s g :
  no_fence_in pre s = true ->
  match_at code_re s = Some (MatchObj (Some g)) ->
  code_of_content (pre ++ s) = inr (strip g).
Proof.
  intros Hpre Hm. unfold code_of_content.
  rewrite (search_skip _ _ _ code_re_opens Hpre).
  by rewrite (search_here _ _ _ Hm).
Qed.

Lemma code_none content :
  no_fence_in content [] = true -> code_of_content content = inr [].
Proof.
  intros H. unfold code_of_content.
  by rewrite (search_none _ _ code_re_opens H).
Qed.

Lemma extract_description_read fs p content d :
  read_text fs p = inr content ->
  description_of_content content = inr d ->
  extract_description_from_md fs p = (d, []).
Proof. unfold extract_description_from_md. by intros -> ->. Qed.

Lemma extract_code_read fs p content c :
  read_text fs p = inr content ->
  code_of_content content = inr c ->
  extract_code_from_md fs p = (c, []).
Proof. unfold extract_code_from_md. by intros -> ->. Qed.

(** The description of a document whose first opening fence is followed
    by a comment line with text. *)
Lemma description_first_block pre tag hws line post :
  no_fence_in pre
    (FENCE ++ tag ++ hws ++ NL :: HASH :: line ++ NL :: post) = true ->
  listed_tag tag = true ->
  blank hws = true ->
  forallb (in_class CDot) line = true ->
  forallb isspace line = false ->
  description_of_content
    (pre ++ FENCE ++ tag ++ hws ++ NL :: HASH :: line ++ NL :: post)
  = inr (strip line).
Proof.
  intros Hpre Htag%listed_tag_In [Hh _]%blank_inv Hline Htext.
  destruct (lstrip_split line Htext)
    as (lead & c & text & -> & Hlead & Hc & Hs).
  replace (strip (lead ++ c :: text)) with (strip (c :: text)).
  2:{ unfold strip. rewrite Hs. cbn [lstrip]. by rewrite Hc. }
  apply description_found; [done|].
  rewrite <- app_assoc. cbn [app].
  apply comment_re_match; try done.
  rewrite forallb_app in Hline. apply andb_prop in Hline as [_ Hline].
  cbn [forallb] in Hline. by apply andb_prop in Hline as [_ Hline].
Qed.

(** The code of a document whose first opening fence is followed by a
    body with text, closed by a fence line. *)
Lemma code_first_block pre tag hws body post :
  no_fence_in pre
    (FENCE ++ tag ++ hws ++ NL :: body ++ NL :: FENCE ++ post) = true ->
  listed_tag tag = true ->
  blank hws = true ->
  fence_free_lines body = true ->
  forallb isspace body = false ->
  code_of_content
    (pre ++ FENCE ++ tag ++ hws ++ NL :: body ++ NL :: FENCE ++ post)
  = inr (strip body).
Proof.
  intros Hpre Htag%listed_tag_In [Hh _]%blank_inv Hfree Htext.
  destruct (body_split hws body Hh Htext)
    as (w1 & w2 & c & rest & Heq & Hw1 & Hw2 & Hnl & Hc & [a Ha] & Hs).
  rewrite <- Hs. apply code_found; [done|].
  change (NL :: body ++ NL :: FENCE ++ post)
    with ((NL :: body) ++ NL :: FENCE ++ post).
  rewrite (app_assoc hws), Heq.
  replace ((w1 ++ NL :: w2 ++ c :: rest) ++ NL :: FENCE ++ post)
    with (w1 ++ NL :: (w2 ++ c :: rest) ++ NL :: FENCE ++ post)
    by (rewrite <- !app_assoc; cbn [app]; by rewrite <- ?app_assoc).
  apply code_re_match; try done.
  unfold fence_free_lines in Hfree. apply andb_prop in Hfree as [_ Hfree].
  rewrite Ha in Hfree. by apply no_fence_line_suffix in Hfree.
Qed.

(** ** Fences with a tag outside the listed spellings *)

Lemma strip_prefix_app_inv t tag (x s2 : pystr) :
  strip_prefix t (tag ++ x) = Some s2 ->
  (exists t', tag = t ++ t' /\ s2 = t' ++ x)
  \/ (exists c x1, t = tag ++ c :: x1 /\ x = c :: x1 ++ s2).
Proof.
  revert tag. induction t as [|a t IH]; intros tag.
  - cbn [strip_prefix]. intros [= <-]. left. by exists tag.
  - destruct tag as [|b tag].
    + cbn [app]. intros H%strip_prefix_Some. right. by exists a, t.
    + cbn [app strip_prefix]. destruct (N.eqb_spec a b) as [->|]; [|done].
      intros [(t' & -> & ->)|(c & x1 & -> & ->)]%IH.
      * left. by exists t'.
      * right. by exists c, x1.
Qed.

Lemma ws_then_nl_head c s : isspace c = false -> ws_then_nl (c :: s) = false.
Proof. intros H. cbn [ws_then_nl]. by rewrite H, (isspace_not_nl c H). Qed.

Lemma unlisted_tag_no_fence tag hws rest :
  listed_tag tag = false ->
  existsb isspace tag = false ->
  forallb isspace hws = true ->
  opens_fence (FENCE ++ tag ++ hws ++ NL :: rest) = false.
Proof.
  intros Htag Hns Hh. unfold opens_fence. rewrite strip_prefix_app.
  apply not_true_is_false. intros (t & Hin & Ht)%existsb_exists.
  destruct (strip_prefix t (tag ++ hws ++ NL :: rest)) as [s2|] eqn:Hp;
    [|done].
  apply strip_prefix_app_inv in Hp as [(t' & -> & ->)|(c & x1 & -> & Hx)].
  - destruct t' as [|c t'].
    + rewrite app_nil_r in Htag.
      assert (listed_tag t = true) as Hl; [|by rewrite Hl in Htag].
      apply existsb_exists. exists t. split; [done|].
      by apply bool_decide_eq_true.
    + rewrite existsb_app in Hns. apply orb_false_elim in Hns as [_ Hns].
      cbn [existsb] in Hns. apply orb_false_elim in Hns as [Hc _].
      cbn [app] in Ht. by rewrite ws_then_nl_head in Ht.
  - assert (isspace c = true) as Hc.
    { destruct hws as [|h hws]; cbn [app] in Hx.
      - by injection Hx as <- _.
      - injection Hx as <- _. cbn [forallb] in Hh.
        by apply andb_prop in Hh as [? _]. }
    assert (forallb (fun x => negb (isspace x)) (tag ++ c :: x1) = true) as Hl.
    { unfold listed_tags in Hin. cbn [In] in Hin.
      by destruct Hin as [<-|[<-|[<-|[<-|[]]]]]. }
    rewrite forallb_app in Hl. apply andb_prop in Hl as [_ Hl].
    cbn [forallb] in Hl. by rewrite Hc in Hl.
Qed.

Lemma no_fence_in_app a b r :
  no_fence_in (a ++ b) r = no_fence_in a (b ++ r) && no_fence_in b r.
Proof.
  induction a as [|x a IH]; [done|].
  cbn [app no_fence_in]. by rewrite IH, <- !app_assoc, andb_assoc.
Qed.

(** A document whose only fence start carries an unlisted tag has no
    opening fence. *)
Lemma unlisted_tag_document pre tag hws rest :
  no_fence_in pre (FENCE ++ tag ++ hws ++ NL :: rest) = true ->
  no_fence_in (drop 1 (FENCE ++ tag ++ hws ++ NL :: rest)) [] = true ->
  listed_tag tag = false ->
  existsb isspace tag = false ->
  forallb isspace hws = true ->
  no_fence_in (pre ++ FENCE ++ tag ++ hws ++ NL :: rest) [] = true.
Proof.
  intros Hpre Hpost Htag Hns Hh.
  rewrite no_fence_in_app, app_nil_r, Hpre. cbn [andb].
  pose proof (unlisted_tag_no_fence tag hws rest Htag Hns Hh) as Hf.
  set (s := FENCE ++ tag ++ hws ++ NL :: rest) in *.
  change s with (96 :: drop 1 s) at 1.
  cbn [no_fence_in]. rewrite Hpost, app_nil_r.
  change (96 :: drop 1 s) with s. by rewrite Hf.
Qed.




(** C2.  The first block of [doc_empty_block] is empty, so its code is
    the empty string; [extract_code_from_md] returns the closing fence
    instead, the text up to the fence of the next block. *)
Theorem C2_empty_block_runs_on :
  first_block listed_tag doc_empty_block = Some []
  /\ spec_code listed_tag doc_empty_block = []
  /\ extract_code_from_md (readable doc_empty_block) doc = (FENCE, []).
Proof. repeat split; vm_compute; reflexivity. Qed.

(** C3 (amended).  The tag is matched against the four spellings [r],
    [R], [python] and [Python] exactly.  A fence with one of them opens a
    block for both operations; a fence with any other tag, such as
    another case variant, does not. *)
Theorem C3_listed_spellings_only :
  (forall fs p pre tag hws body post,
     read_text fs p
       = inr (pre ++ FENCE ++ tag ++ hws ++ NL :: body ++ NL :: FENCE ++ post) ->
     no_fence_in pre
       (FENCE ++ tag ++ hws ++ NL :: body ++ NL :: FENCE ++ post) = true ->
     listed_tag tag = true ->
     blank hws = true ->
     fence_free_lines body = true ->
     forallb isspace body = false ->
     extract_code_from_md fs p = (strip body, []))
  /\
  (forall fs p pre tag hws line post,
     read_text fs p
       = inr (pre ++ FENCE ++ tag ++ hws ++ NL :: HASH :: line ++ NL :: post) ->
     no_fence_in pre
       (FENCE ++ tag ++ hws ++ NL :: HASH :: line ++ NL :: post) = true ->
     listed_tag tag = true ->
     blank hws = true ->
     forallb (in_class CDot) line = true ->
     forallb isspace line = false ->
     extract_description_from_md fs p = (strip line, []))
  /\
  (forall fs p pre tag hws rest,
     read_text fs p = inr (pre ++ FENCE ++ tag ++ hws ++ NL :: rest) ->
     no_fence_in pre (FENCE ++ tag ++ hws ++ NL :: rest) = true ->
     no_fence_in (drop 1 (FENCE ++ tag ++ hws ++ NL :: rest)) [] = true ->
     listed_tag tag = false ->
     existsb isspace tag = false ->
     forallb isspace hws = true ->
     extract_code_from_md fs p = ([], [])
     /\ extract_description_from_md fs p = (FALLBACK, [])).
Proof.
  split; [|split].
  - intros fs p pre tag hws body post Hr Hpre Htag Hh Hf Ht.
    apply (extract_code_read _ _ _ _ Hr). by apply code_first_block.
  - intros fs p pre tag hws line post Hr Hpre Htag Hh Hl Ht.
    apply (extract_description_read _ _ _ _ Hr).
    by apply description_first_block.
  - intros fs p pre tag hws rest Hr Hpre Hpost Htag Hns Hh.
    pose proof (unlisted_tag_document _ _ _ _ Hpre Hpost Htag Hns Hh) as Hn.
    split.
    + apply (extract_code_read _ _ _ _ Hr), code_none, Hn.
    + apply (extract_description_read _ _ _ _ Hr), description_none, Hn.
Qed.

Lemma C3_witness :
  extract_code_from_md (readable doc_plain) doc
    = (HASH :: py "   hi there  " ++ NL :: py "print(1)", [])
  /\ extract_description_from_md (readable doc_plain) doc
     = (py "hi there", [])
  /\ extract_code_from_md (readable doc_upper) doc = ([], [])
  /\ extract_description_from_md (readable doc_upper) doc = (FALLBACK, []).
Proof.
  split; [|split].
  - apply (proj1 C3_listed_spellings_only (readable doc_plain) doc
             plain_pre TAG_Python plain_hws
             (HASH :: plain_line ++ NL :: plain_code) [NL]);
      vm_compute; reflexivity.
  - apply (proj1 (proj2 C3_listed_spellings_only) (readable doc_plain) doc
             plain_pre TAG_Python plain_hws plain_line
             (plain_code ++ NL :: FENCE ++ [NL]));
      vm_compute; reflexivity.
  - apply (proj2 (proj2 C3_listed_spellings_only) (readable doc_upper) doc
             [] (py "PYTHON") [] (upper_body ++ NL :: FENCE ++ [NL]));
      vm_compute; reflexivity.
Defined.

(** C3 (as stated) fails: [PYTHON] is a case variant of a recognized tag,
    yet the block it opens is not seen by either operation. *)
Lemma C3_counterexample :
  case_variant_tag (py "PYTHON") = true
  /\ spec_code case_variant_tag doc_upper = upper_body
  /\ extract_code_from_md (readable doc_upper) doc = ([], [])
  /\ spec_description case_variant_tag doc_upper = py "hi"
  /\ extract_description_from_md (readable doc_upper) doc = (FALLBACK, []).
Proof. repeat split; vm_compute; reflexivity. Qed.

(** C8.  When the file cannot be read, [extract_description_from_md]
    returns the fallback and [extract_code_from_md] the empty string,
    each with one diagnostic and without raising; the scan goes on with
    an item made of these defaults. *)
Theorem C8_unreadable_file fs p e :
  read_text fs p = inl e ->
  extract_description_from_md fs p = (FALLBACK, [WarnUnreadable p e])
  /\ extract_code_from_md fs p = ([], [WarnUnreadable p e])
  /\ forall names acc,
       stem (p_name p) ++ EXT_PNG ∈ names ->
       exists it,
         scan_step fs (p_dir p) names acc (p_name p)
           = (acc.1 ++ [it],
              acc.2 ++ [WarnUnreadable p e; WarnUnreadable p e])
         /\ title it = stem (p_name p)
         /\ description it = FALLBACK /\ code it = [].
Proof.
  intros Hr. unfold extract_description_from_md, extract_code_from_md.
  rewrite Hr. split; [done|split; [done|]].
  intros names acc Hpng. unfold scan_step.
  rewrite bool_decide_eq_true_2 by done.
  unfold extract_description_from_md, extract_code_from_md.
  destruct p as [d n]. cbn [p_dir p_name] in *. rewrite Hr.
  eexists. split; [reflexivity|]. done.
Qed.

Lemma C8_witness :
  extract_description_from_md (unreadable (OSError [])) doc
    = (FALLBACK, [WarnUnreadable doc (OSError [])])
  /\ extract_code_from_md (unreadable (OSError [])) doc
     = ([], [WarnUnreadable doc (OSError [])]).
Proof.
  pose proof (C8_unreadable_file (unreadable (OSError [])) doc (OSError [])
                eq_refl) as (H1 & H2 & _).
  exact (conj H1 H2).
Defined.

(** C10.  The first line of the first block of [doc_blank_comment] is the
    comment marker followed by whitespace only, yet the description is
    the next line of code, not the fallback; when that line is the last
    one of the block the description is the empty string. *)
Theorem C10_blank_comment_not_fallback :
  first_block listed_tag doc_blank_comment
    = Some [HASH :: py " "; py "x <- 1"]
  /\ extract_description_from_md (readable doc_blank_comment) doc
     = (py "x <- 1", [])
  /\ first_block listed_tag doc_blank_comment_last = Some [HASH :: py " "]
  /\ extract_description_from_md (readable doc_blank_comment_last) doc
     = ([], []).
Proof. repeat split; vm_compute; reflexivity. Qed.

(** ** The order on strings *)

Lemma str_leb_total a b : str_leb a b = true \/ str_leb b a = true.
Proof.
  revert b. induction a as [|x a IH]; intros [|y b]; cbn [str_leb]; auto.
  destruct (N.ltb_spec x y), (N.ltb_spec y x), (N.eqb_spec x y),
    (N.eqb_spec y x); cbn [orb andb]; auto; lia.
Qed.

Lemma str_leb_trans a b c :
  str_leb a b = true -> str_leb b c = true -> str_leb a c = true.
Proof.
  revert b c. induction a as [|x a IH]; intros [|y b] [|z c];
    cbn [str_leb]; try done.
  destruct (N.ltb_spec x y), (N.ltb_spec y z), (N.ltb_spec x z),
    (N.eqb_spec x y), (N.eqb_spec y z), (N.eqb_spec x z);
    cbn [orb andb]; try done; try lia.
  apply IH.
Qed.

Lemma str_leb_antisym a b :
  str_leb a b = true -> str_leb b a = true -> a = b.
Proof.
  revert b. induction a as [|x a IH]; intros [|y b]; cbn [str_leb];
    try done.
  destruct (N.ltb_spec x y), (N.ltb_spec y x), (N.eqb_spec x y),
    (N.eqb_spec y x); cbn [orb andb]; try done; try lia.
  intros H1 H2. subst. f_equal. by apply IH.
Qed.

#[global] Instance str_le_total : Total str_le.
Proof. intros a b. apply str_leb_total. Qed.

#[global] Instance str_le_trans : Transitive str_le.
Proof. intros a b c. apply str_leb_trans. Qed.

#[global] Instance str_le_antisym : AntiSymm (=) str_le.
Proof. intros a b. apply str_leb_antisym. Qed.


Lemma sorted_Permutation names : sorted names ≡ₚ names.
Proof. apply merge_sort_Permutation. Qed.


(** ** Names of documentation files *)

Lemma startswith_app p (s : pystr) : startswith p (p ++ s) = true.
Proof. induction p as [|a p IH]; [done|]. simpl. by rewrite N.eqb_refl. Qed.

Lemma startswith_inv p (s : pystr) :
  startswith p s = true -> exists t, s = p ++ t.
Proof.
  revert s. induction p as [|a p IH]; intros s; [by exists s|].
  destruct s as [|b s]; [done|]. cbn [startswith].
  intros [Hab%N.eqb_eq [t ->]%IH]%andb_prop. subst. by exists t.
Qed.

Lemma endswith_inv suffix s :
  endswith suffix s = true -> exists x, s = x ++ suffix.
Proof.
  unfold endswith. intros [t Ht]%startswith_inv. exists (rev t).
  by rewrite <- (rev_involutive s), Ht, rev_app_distr, rev_involutive.
Qed.

Lemma endswith_app suffix x : endswith suffix (x ++ suffix) = true.
Proof. unfold endswith. rewrite rev_app_distr. apply startswith_app. Qed.

Lemma rfind_from_app c (x y : pystr) pos :
  rfind_from c (x ++ y) pos =
  match rfind_from c y (pos + length x) with
  | Some j => Some j
  | None => rfind_from c x pos
  end.
Proof.
  revert pos. induction x as [|a x IH]; intros pos.
  - cbn [app length rfind_from]. rewrite Nat.add_0_r.
    by destruct (rfind_from c y pos).
  - cbn [app length rfind_from]. rewrite IH.
    replace (S pos + length x)%nat with (pos + S (length x))%nat by lia.
    by destruct (rfind_from c y (pos + S (length x))).
Qed.

(** The stem of [x.md] is [x], unless [x] is empty. *)
Lemma stem_md x : x <> [] -> stem (x ++ EXT_MD) = x.
Proof.
  intros Hx. unfold stem. rewrite rfind_from_app.
  change (rfind_from DOT EXT_MD (0 + length x))
    with (Some (0 + length x)%nat).
  rewrite length_app. change (length EXT_MD) with 3%nat.
  assert (0 < length x)%nat by (destruct x; [done|simpl; lia]).
  replace ((0 <? 0 + length x)%nat) with true
    by (symmetry; apply Nat.ltb_lt; lia).
  replace ((0 + length x <? length x + 3 - 1)%nat) with true
    by (symmetry; apply Nat.ltb_lt; lia).
  cbn [andb]. by rewrite Nat.add_0_l, take_app_length.
Qed.

Lemma stem_dot_md : stem EXT_MD = EXT_MD.
Proof. reflexivity. Qed.

Lemma elem_of_glob_md n names :
  n ∈ glob_md names <-> n ∈ names /\ exists x, n = x ++ EXT_MD.
Proof.
  unfold glob_md. rewrite list_elem_of_filter. split.
  - intros [He Hn]. split; [done|]. apply endswith_inv.
    by apply Is_true_true.
  - intros [Hn [x ->]]. split; [|done]. apply Is_true_true, endswith_app.
Qed.

(** ** The scan as a filter and a map *)

Lemma scan_step_image fs d names acc n :
  has_image names n = true ->
  scan_step fs d names acc n
  = (acc.1 ++ [item_of fs d n], acc.2 ++ diags_of fs d n).
Proof.
  unfold has_image, scan_step, item_of, diags_of. intros ->.
  destruct (extract_description_from_md fs (Path d n)) as [de o1].
  by destruct (extract_code_from_md fs (Path d n)) as [co o2].
Qed.

Lemma scan_step_no_image fs d names acc n :
  has_image names n = false -> scan_step fs d names acc n = acc.
Proof. unfold has_image, scan_step. by intros ->. Qed.

Lemma scan_fold fs d names docs acc :
  fold_left (scan_step fs d names) docs acc
  = (acc.1 ++ map (item_of fs d)
                (filter (fun n => Is_true (has_image names n)) docs),
     acc.2 ++ concat (map (diags_of fs d)
                (filter (fun n => Is_true (has_image names n)) docs))).
Proof.
  revert acc. induction docs as [|n docs IH]; intros [items out].
  - cbn. by rewrite !app_nil_r.
  - cbn [fold_left]. rewrite IH.
    destruct (has_image names n) eqn:Hn.
    + rewrite scan_step_image by done.
      rewrite filter_cons_True by by apply Is_true_true.
      cbn [fst snd map concat]. by rewrite <- !app_assoc.
    + rewrite scan_step_no_image by done.
      rewrite filter_cons_False; [done|].
      by rewrite Is_true_false.
Qed.

(** The documentation files that the scan keeps, in its order. *)
Lemma scan_directory_items fs d names :
  listdir fs d = Some names ->
  scan_directory fs d
  = (map (item_of fs d)
       (filter (fun n => Is_true (has_image names n)) (sorted (glob_md names))),
     concat (map (diags_of fs d)
       (filter (fun n => Is_true (has_image names n)) (sorted (glob_md names))))).
Proof. unfold scan_directory. intros ->. by rewrite scan_fold. Qed.

Lemma scan_directory_missing fs d :
  listdir fs d = None -> scan_directory fs d = ([], [WarnNoDirectory d]).
Proof. unfold scan_directory. by intros ->. Qed.

Lemma elem_of_kept names n :
  n ∈ filter (fun n => Is_true (has_image names n)) (sorted (glob_md names))
  <-> n ∈ names /\ (exists x, n = x ++ EXT_MD) /\ stem n ++ EXT_PNG ∈ names.
Proof.
  rewrite list_elem_of_filter, sorted_Permutation, elem_of_glob_md.
  unfold has_image. rewrite Is_true_true, bool_decide_eq_true. tauto.
Qed.







(** ** Order of the items *)

Lemma fold_left_append {X} (g : nat -> X -> pystr) l acc :
  fold_left (fun acc '(i, x) => acc ++ g i x) l acc
  = acc ++ concat (map (fun '(i, x) => g i x) l).
Proof.
  revert acc. induction l as [|[i x] l IH]; intros acc; cbn.
  - by rewrite app_nil_r.
  - by rewrite IH, <- app_assoc.
Qed.

Lemma gallery_items_of_concat items :
  gallery_items_of items
  = concat (map (fun '(i, it) => fstring (card_parts i it))
              (enumerate 1 items)).
Proof. unfold gallery_items_of. by rewrite fold_left_append. Qed.

Lemma modals_of_concat lang_name lang_code items :
  modals_of lang_name lang_code items
  = concat (map (fun '(i, it) => fstring (modal_parts lang_name lang_code i it))
              (enumerate 1 items)).
Proof. unfold modals_of. by rewrite fold_left_append. Qed.





(** C7.  When the scan of a category yields no item, [generate_page]
    writes no file, prints the diagnostic of the empty category after
    those of the scan and returns without raising; the scan yields no
    item for a missing directory and for an empty one. *)
Theorem C7_empty_category_writes_nothing :
  (forall ulower fs pages0 d output_filename,
     (scan_directory fs d).1 = [] ->
     generate_page ulower fs pages0 d output_filename
     = PageResult None pages0 ((scan_directory fs d).2 ++ [WarnNoItems d]))
  /\ (forall fs d, listdir fs d = None -> (scan_directory fs d).1 = [])
  /\ (forall fs d, listdir fs d = Some [] -> (scan_directory fs d).1 = []).
Proof.
  split; [|split].
  - intros ulower fs pages0 d f. unfold generate_page.
    destruct (scan_directory fs d) as [items out]. cbn [fst snd].
    by intros ->.
  - intros fs d Hl. by rewrite scan_directory_missing.
  - intros fs d Hl. by rewrite (scan_directory_items _ _ _ Hl).
Qed.

Lemma C7_witness :
  generate_page ulower_id (one_dir (py "d") [] doc_plain) ∅ (py "d") None
  = PageResult None ∅ [WarnNoItems (py "d")]
  /\ generate_page ulower_id (readable doc_plain) ∅ (py "d") None
     = PageResult None ∅ [WarnNoDirectory (py "d"); WarnNoItems (py "d")].
Proof.
  split.
  - apply (proj1 C7_empty_category_writes_nothing ulower_id
             (one_dir (py "d") [] doc_plain) ∅ (py "d") None).
    apply (proj2 (proj2 C7_empty_category_writes_nothing)). reflexivity.
  - apply (proj1 C7_empty_category_writes_nothing ulower_id
             (readable doc_plain) ∅ (py "d") None).
    apply (proj1 (proj2 C7_empty_category_writes_nothing)). reflexivity.
Defined.

(** ** Substrings and lower case *)

Lemma contains_app kw (x y : pystr) : contains kw (x ++ kw ++ y) = true.
Proof.
  induction x as [|c x IH].
  - cbn [app]. destruct (kw ++ y) eqn:E; cbn [contains];
      rewrite <- E, startswith_app; done.
  - cbn [app contains]. by rewrite IH, orb_true_r.
Qed.

Lemma contains_inv kw (s : pystr) :
  contains kw s = true -> exists x y, s = x ++ kw ++ y.
Proof.
  induction s as [|c s IH]; cbn [contains].
  - rewrite orb_false_r. intros [t ->]%startswith_inv. by exists [], t.
  - intros [[t ->]%startswith_inv|[x [y ->]]%IH]%orb_prop.
    + by exists [], t.
    + by exists (c :: x), y.
Qed.

Section LowerFacts.
Variable ulower : pystr -> N -> pystr -> pystr.

Lemma lower_from_ascii before w post :
  is_ascii w = true ->
  lower_from ulower before (w ++ post)
  = map ascii_lower w ++ lower_from ulower (before ++ w) post.
Proof.
  revert before. induction w as [|c w IH]; intros before.
  - by rewrite app_nil_r.
  - unfold is_ascii in *. cbn [forallb]. intros [Hc Hw]%andb_prop.
    cbn [app lower_from map]. unfold lower_char at 1. rewrite Hc.
    cbn [app]. rewrite (IH _ Hw). by rewrite <- app_assoc.
Qed.

Lemma lower_from_prefix before pre s :
  exists x,
    lower_from ulower before (pre ++ s)
    = x ++ lower_from ulower (before ++ pre) s.
Proof.
  revert before. induction pre as [|c pre IH]; intros before.
  - exists []. by rewrite app_nil_r.
  - destruct (IH (before ++ [c])) as [x Hx].
    exists (lower_char ulower before c (pre ++ s) ++ x).
    cbn [app lower_from]. by rewrite Hx, <- !app_assoc.
Qed.

(** On a name of ASCII characters [lower] folds the letters. *)
Lemma lower_ascii name :
  is_ascii name = true -> lower ulower name = map ascii_lower name.
Proof.
  intros H. unfold lower. rewrite <- (app_nil_r name) at 1.
  rewrite lower_from_ascii by done. cbn [lower_from]. apply app_nil_r.
Qed.

Lemma ascii_lower_ascii c : (ascii_lower c <? 128) = true -> (c <? 128) = true.
Proof.
  unfold ascii_lower. destruct ((65 <=? c) && (c <=? 90)) eqn:E; [|done].
  intros _. apply andb_prop in E as [_ E%N.leb_le]. apply N.ltb_lt. lia.
Qed.

Lemma is_ascii_fold w : is_ascii (map ascii_lower w) = true -> is_ascii w = true.
Proof.
  unfold is_ascii. induction w as [|c w IH]; [done|]. cbn [map forallb].
  intros [Hc Hw]%andb_prop. by rewrite (ascii_lower_ascii c Hc), IH.
Qed.

(** A keyword of ASCII characters that occurs in the name up to the case
    of its letters occurs in the lower-cased name. *)
Lemma contains_ci_lower kw name :
  is_ascii kw = true ->
  contains_ci kw name = true ->
  contains kw (lower ulower name) = true.
Proof.
  intros Hkw [x [y Hxy]]%contains_inv.
  apply map_eq_app in Hxy as (pre & wpost & -> & <- & Hxy).
  apply map_eq_app in Hxy as (w & post & -> & <- & <-).
  apply is_ascii_fold in Hkw. unfold lower.
  destruct (lower_from_prefix [] pre (w ++ post)) as [x ->].
  rewrite lower_from_ascii by done. apply contains_app.
Qed.
(** *** Keywords in the lower-cased name, under the condition on the
    Unicode mapping *)

Hypothesis Hu : unicode_lower_ok ulower.

Lemma mapping_ok_inv e :
  mapping_ok e = true ->
  exists x e', e = x :: e' /\ kw_char x = false
    /\ forallb (fun y => negb (kw_char y)) e' = true
    /\ (x = LETTER_i -> e' <> []).
Proof.
  unfold mapping_ok. intros [Ha Hl]%andb_prop.
  destruct e as [|x e']; [done|]. exists x, e'.
  cbn [forallb] in Ha. apply andb_prop in Ha as [Hx%negb_true_iff Ha].
  repeat split; try done.
  intros -> ->. cbn in Hl. done.
Qed.

Lemma kw_ok_tail c kw : kw_ok (c :: kw) = true -> kw_ok kw = true.
Proof. cbn [kw_ok]. by intros [_ ?]%andb_prop. Qed.

(** A keyword tail that begins the lower-cased name begins the name
    with its ASCII letters folded. *)
Lemma startswith_lower kw before name :
  kw_ok kw = true ->
  startswith kw (lower_from ulower before name) = true ->
  startswith kw (map ascii_lower name) = true.
Proof.
  revert kw before. induction name as [|c name IH]; intros kw before Hkw.
  - by destruct kw.
  - destruct kw as [|k kw]; [done|].
    cbn [lower_from map]. unfold lower_char.
    destruct (N.ltb_spec c 128) as [Hc|Hc].
    + cbn [app startswith]. intros [-> Hs]%andb_prop. cbn [andb].
      apply (IH kw (before ++ [c])); [|done]. by apply kw_ok_tail in Hkw.
    + destruct (mapping_ok_inv _ (Hu before c name Hc))
        as (x & e' & -> & Hx & He' & Hi).
      cbn [app startswith]. intros [Hk%N.eqb_eq Hs]%andb_prop. subst x.
      exfalso. cbn [kw_ok] in Hkw. apply andb_prop in Hkw as [Hk _].
      rewrite Hx in Hk. cbn [orb] in Hk.
      apply andb_prop in Hk as [Hk%N.eqb_eq Hk2]. subst k.
      destruct kw as [|k2 kw]; [done|].
      destruct e' as [|x2 e']; [by apply Hi|].
      cbn [app startswith] in Hs. apply andb_prop in Hs as [Hx2%N.eqb_eq _].
      subst x2. cbn [forallb] in He'. by rewrite Hk2 in He'.
Qed.

Lemma contains_app_inv kw (e l : pystr) :
  contains kw (e ++ l) = true ->
  (exists e1 x e2, e = e1 ++ x :: e2 /\ startswith kw (x :: e2 ++ l) = true)
  \/ contains kw l = true.
Proof.
  induction e as [|x e IH]; [by right|].
  cbn [app contains]. intros [H|H]%orb_prop.
  - left. by exists [], x, e.
  - destruct (IH H) as [(e1 & y & e2 & -> & Hs)|Hl]; [|by right].
    left. by exists (x :: e1), y, e2.
Qed.

Lemma contains_cons kw c (s : pystr) :
  contains kw s = true -> contains kw (c :: s) = true.
Proof. intros H. cbn [contains]. by rewrite H, orb_true_r. Qed.

(** A keyword found in the lower-cased name is in the name, up to the
    case of ASCII letters. *)
Lemma contains_lower_ci k kw before name :
  kw_char k = true -> kw_ok (k :: kw) = true ->
  contains (k :: kw) (lower_from ulower before name) = true ->
  contains (k :: kw) (map ascii_lower name) = true.
Proof.
  intros Hk Hkw. revert before.
  induction name as [|c name IH]; intros before; [done|].
  cbn [lower_from map].
  intros [(e1 & x & e2 & He & Hs)|Hl]%contains_app_inv.
  - unfold lower_char in He. destruct (N.ltb_spec c 128) as [Hc|Hc].
    + destruct e1 as [|? [|? ?]]; [|done..].
      injection He as <- <-. cbn [app] in Hs. cbn [contains].
      apply orb_true_intro. left.
      cbn [startswith] in *. apply andb_prop in Hs as [-> Hs].
      cbn [andb]. apply (startswith_lower kw (before ++ [c])); [|done].
      by apply kw_ok_tail in Hkw.
    + exfalso. pose proof (Hu before c name Hc) as Ho.
      unfold mapping_ok in Ho. apply andb_prop in Ho as [Ho _].
      rewrite He, forallb_app in Ho. apply andb_prop in Ho as [_ Ho].
      cbn [forallb] in Ho. apply andb_prop in Ho as [Hx%negb_true_iff _].
      cbn [startswith] in Hs. apply andb_prop in Hs as [Hkx%N.eqb_eq _].
      congruence.
  - apply contains_cons. by apply (IH (before ++ [c])).
Qed.

(** Under the condition on the Unicode mapping, the keywords are found
    in the lower-cased name exactly when they are in the name up to the
    case of ASCII letters. *)
Lemma contains_lower_iff kw name :
  match kw with k :: _ => kw_char k | [] => false end = true ->
  kw_ok kw = true -> is_ascii kw = true ->
  contains kw (lower ulower name) = contains_ci kw name.
Proof.
  destruct kw as [|k kw]; [done|].
  intros Hk Hkw Ha. apply eq_true_iff_eq. split.
  - by apply contains_lower_ci.
  - by apply contains_ci_lower.
Qed.

Lemma detect_language_spec name :
  detect_language ulower name = spec_language name.
Proof.
  unfold detect_language, spec_language.
  by rewrite !contains_lower_iff by (vm_compute; reflexivity).
Qed.
End LowerFacts.

(** C6.  [detect_language] is a total function of the category name that
    decides on the lower-cased name, in this order: containing [r code]
    or [r-code] gives R, else containing [python] gives Python, else
    containing [javascript] or [js] gives JavaScript, else the generic
    pair.  A keyword written in any case of its letters is found; on a
    name of ASCII characters, and on every name when the lower-case
    mapping of the code points above 127 brings in no character of the
    keywords, the result is the one that the name as written asks for. *)
Theorem C6_detect_language ulower :
  (forall name,
     let l := lower ulower name in
     (contains (py "r code") l || contains (py "r-code") l = true ->
      detect_language ulower name = (py "R", py "r"))
     /\ (contains (py "r code") l || contains (py "r-code") l = false ->
         contains (py "python") l = true ->
         detect_language ulower name = (py "Python", py "python"))
     /\ (contains (py "r code") l || contains (py "r-code") l = false ->
         contains (py "python") l = false ->
         contains (py "javascript") l || contains (py "js") l = true ->
         detect_language ulower name = (py "JavaScript", py "javascript"))
     /\ (contains (py "r code") l || contains (py "r-code") l = false ->
         contains (py "python") l = false ->
         contains (py "javascript") l || contains (py "js") l = false ->
         detect_language ulower name = (py "Code", py "plaintext")))
  /\ (forall name kw,
        is_ascii kw = true -> contains_ci kw name = true ->
        contains kw (lower ulower name) = true)
  /\ (forall name,
        is_ascii name = true ->
        detect_language ulower name = spec_language name)
  /\ (unicode_lower_ok ulower ->
      forall name, detect_language ulower name = spec_language name)
  /\ detect_language ulower (py "R code") = (py "R", py "r")
  /\ detect_language ulower (py "Python code") = (py "Python", py "python")
  /\ detect_language ulower (py "Foo") = (py "Code", py "plaintext").
Proof.
  split; [|split; [|split; [|split]]].
  - intros name l. unfold detect_language. fold l.
    repeat split.
    + by intros ->.
    + by intros -> ->.
    + by intros -> -> ->.
    + by intros -> -> ->.
  - intros name kw. apply contains_ci_lower.
  - intros name H. unfold detect_language, spec_language, contains_ci.
    by rewrite lower_ascii.
  - intros Hu name. by apply detect_language_spec.
  - unfold detect_language.
    rewrite !lower_ascii by (vm_compute; reflexivity).
    repeat split; vm_compute; reflexivity.
Qed.

Lemma ulower_id_ok : unicode_lower_ok ulower_id.
Proof.
  intros before c after Hc. unfold ulower_id.
  destruct (N.eqb_spec c 304) as [->|H1]; [done|].
  destruct (N.eqb_spec c 8490) as [->|H2]; [done|].
  unfold mapping_ok. cbn [forallb last]. rewrite !andb_true_r.
  apply andb_true_intro. split.
  - apply negb_true_iff. unfold kw_char, KW_CHARS.
    apply not_true_is_false. intros (x & Hx & He%N.eqb_eq)%existsb_exists.
    subst x. cbn [In] in Hx.
    repeat (destruct Hx as [Hx|Hx]; [subst c; lia|]). done.
  - apply negb_true_iff, N.eqb_neq. unfold LETTER_i. lia.
Qed.

Lemma C6_witness :
  detect_language ulower_id (py "My PYTHON scripts")
    = (py "Python", py "python")
  /\ contains (py "r-code") (lower ulower_id (py "Old R-Code")) = true
  /\ detect_language ulower_id (py "javascrİpt")
     = spec_language (py "javascrİpt").
Proof.
  split; [|split].
  - apply (proj1 (proj2 (proj1 (C6_detect_language ulower_id)
                          (py "My PYTHON scripts"))));
      vm_compute; reflexivity.
  - apply (proj1 (proj2 (C6_detect_language ulower_id)));
      vm_compute; reflexivity.
  - apply (proj1 (proj2 (proj2 (proj2 (C6_detect_language ulower_id))))).
    exact ulower_id_ok.
Defined.

(** ** Occurrences of a pattern in concatenated text *)

Lemma startswith_stable p (b x : pystr) :
  startswith b p && (length b <? length p)%nat = false ->
  startswith p (b ++ x) = startswith p b.
Proof.
  revert b. induction p as [|a p IH]; intros b; [done|].
  destruct b as [|c b]; [done|].
  cbn [app startswith length]. rewrite (N.eqb_sym c a).
  destruct (a =? c); [|done]. cbn [andb].
  change (S (length b) <? S (length p))%nat with (length b <? length p)%nat.
  apply IH.
Qed.

Lemma no_dangling_suffix p (a b : pystr) :
  no_dangling p (a ++ b) = true -> no_dangling p b = true.
Proof.
  induction a as [|c a IH]; [done|]. cbn [app no_dangling].
  intros [_ H]%andb_prop. by apply IH.
Qed.

Lemma no_dangling_self_contained p l :
  no_dangling p l = true -> self_contained p l.
Proof.
  intros H a b x -> Hb. apply no_dangling_suffix in H.
  destruct b as [|c b]; [done|]. cbn [no_dangling] in H.
  apply andb_prop in H as [H _]. apply negb_true_iff in H.
  by apply startswith_stable.
Qed.

Lemma tag_free_suffix (a b : pystr) : tag_free (a ++ b) = true -> tag_free b = true.
Proof.
  induction a as [|c a IH]; [done|].
  change ((c :: a) ++ b) with (c :: (a ++ b)). cbn [tag_free].
  intros [_ H]%andb_prop. by apply IH.
Qed.

(** Where a pattern occurs, every beginning of the pattern fits. *)
Lemma startswith_compat h p (s x : pystr) :
  startswith h p = true -> startswith p (s ++ x) = true ->
  startswith h s || startswith s h = true.
Proof.
  revert p s. induction h as [|a h IH]; intros p s; [done|].
  destruct p as [|a' p]; [done|]. cbn [startswith].
  intros [Ha%N.eqb_eq Hp]%andb_prop. subst a'.
  destruct s as [|c s]; [done|]. cbn [app startswith].
  intros [Hc%N.eqb_eq Hs]%andb_prop. subst c.
  rewrite N.eqb_refl. cbn [andb]. by apply (IH p).
Qed.

(** A tag pattern does not begin in a text free of tag beginnings. *)
Lemma tag_free_no_start p y b x :
  tag_pattern p = true -> tag_free (y :: b) = true ->
  startswith p (y :: b ++ x) = false.
Proof.
  intros (h & Hin & Hh)%existsb_exists H. cbn [tag_free] in H.
  apply andb_prop in H as [H _]. apply negb_true_iff in H.
  apply not_true_is_false. intros Hs.
  assert (begins_tag (y :: b) = true) as Hb; [|congruence].
  apply existsb_exists. exists h. split; [done|].
  by apply (startswith_compat h p (y :: b) x).
Qed.

Lemma tag_pattern_nonempty p : tag_pattern p = true -> p <> [].
Proof. by intros H ->. Qed.

Lemma tag_free_self_contained p f :
  tag_pattern p = true -> tag_free f = true -> self_contained p f.
Proof.
  intros Hp H a b x -> Hb. apply tag_free_suffix in H.
  destruct b as [|y b]; [done|].
  change ((y :: b) ++ x) with (y :: b ++ x).
  rewrite (tag_free_no_start p y b x Hp H).
  rewrite <- (app_nil_r b) at 1. by rewrite (tag_free_no_start p y b [] Hp H).
Qed.

Lemma self_contained_nil p : self_contained p [].
Proof. intros a b x H Hb. by destruct a, b. Qed.

Lemma self_contained_app p l1 l2 :
  self_contained p l1 -> self_contained p l2 -> self_contained p (l1 ++ l2).
Proof.
  intros H1 H2 a b x Hab Hb.
  apply app_eq_inv in Hab as [(k & -> & ->)|(k & -> & ->)].
  - destruct k as [|c k].
    + by apply (H2 [] l2).
    + rewrite <- app_assoc.
      rewrite (H1 a (c :: k) (l2 ++ x) eq_refl) by done.
      by rewrite (H1 a (c :: k) l2 eq_refl).
  - by apply (H2 k b).
Qed.

Lemma self_contained_suffix p (a b : pystr) :
  self_contained p (a ++ b) -> self_contained p b.
Proof. intros H a' b' x -> Hb. apply (H (a ++ a') b'); [|done]. by rewrite app_assoc. Qed.

Lemma count_sub_app p l x :
  p <> [] -> self_contained p l ->
  count_sub p (l ++ x) = (count_sub p l + count_sub p x)%nat.
Proof.
  intros Hp. induction l as [|c l IH]; intros Hl.
  - cbn [app count_sub]. by destruct p.
  - cbn [app count_sub].
    change (c :: l ++ x) with ((c :: l) ++ x).
    rewrite (Hl [] (c :: l) x eq_refl) by done.
    rewrite IH; [lia|]. by apply (self_contained_suffix p [c]).
Qed.

Lemma count_sub_tag_free p f :
  tag_pattern p = true -> tag_free f = true -> count_sub p f = 0%nat.
Proof.
  intros Hp. induction f as [|y f IH]; intros H.
  - cbn [count_sub]. by destruct p.
  - cbn [count_sub]. rewrite <- (app_nil_r f) at 1.
    rewrite (tag_free_no_start p y f [] Hp H).
    rewrite IH; [done|]. by apply (tag_free_suffix [y]).
Qed.

(** ** Occurrences in an f-string *)

Lemma fstring_cons q ps : fstring (q :: ps) = fpart_text q ++ fstring ps.
Proof. done. Qed.

Lemma fstring_literal_at ks pos ps : fstring (literal_at ks pos ps) = fstring ps.
Proof.
  revert pos. induction ps as [|q ps IH]; intros pos; [done|].
  cbn [literal_at]. rewrite !fstring_cons, IH.
  by destruct (existsb (Nat.eqb pos) ks).
Qed.

Lemma fstring_fuse ps : fstring (fuse ps) = fstring ps.
Proof.
  induction ps as [|[a|v] ps IH]; [done| |].
  - cbn [fuse]. rewrite fstring_cons, <- IH.
    destruct (fuse ps) as [|[b|w] r]; [done| |done].
    rewrite !fstring_cons. cbn [fpart_text]. by rewrite app_assoc.
  - cbn [fuse]. by rewrite !fstring_cons, IH.
Qed.

Lemma Forall_literal_at (Q : fpart -> Prop) ks pos ps :
  (forall l, Q (FLit l)) -> Forall Q ps -> Forall Q (literal_at ks pos ps).
Proof.
  intros HQ H. revert pos. induction H as [|q ps Hq H IH]; intros pos.
  - constructor.
  - cbn [literal_at]. constructor; [|apply IH].
    by destruct (existsb (Nat.eqb pos) ks).
Qed.

Lemma Forall_fuse (Q : fpart -> Prop) ps :
  (forall l, Q (FLit l)) -> Forall Q ps -> Forall Q (fuse ps).
Proof.
  intros HQ. induction 1 as [|[a|v] ps Hq H IH]; [constructor| |].
  - cbn [fuse]. destruct (fuse ps) as [|[b|w] r].
    + by constructor.
    + apply Forall_cons in IH as [_ IH]. by constructor.
    + by constructor.
  - cbn [fuse]. by constructor.
Qed.

(** Occurrences of [p] in an f-string whose literal texts and values
    keep their occurrences: those of the literal texts and those of the
    values. *)
Lemma count_fstring p ps :
  p <> [] -> lits_ok p ps = true -> Forall (val_ok p) ps ->
  self_contained p (fstring ps)
  /\ count_sub p (fstring ps) = (lit_count p ps + val_count p ps)%nat.
Proof.
  intros Hp. induction ps as [|q ps IH].
  - intros _ _. split; [apply self_contained_nil|]. by destruct p.
  - cbn [lits_ok forallb]. intros [Hq Hl]%andb_prop [Hv Hvs]%Forall_cons.
    destruct (IH Hl Hvs) as [IH1 IH2].
    assert (self_contained p (fpart_text q)) as Hsc.
    { destruct q as [l|v]; [by apply no_dangling_self_contained|done]. }
    rewrite fstring_cons. split; [by apply self_contained_app|].
    rewrite count_sub_app, IH2 by done.
    destruct q; cbn [fpart_text lit_count val_count]; lia.
Qed.

Lemma val_count_tag_free p ps :
  tag_pattern p = true ->
  Forall val_tag_free ps -> val_count p ps = 0%nat.
Proof.
  intros Hp. induction 1 as [|[l|v] ps Hq H IH]; [done|done|].
  cbn [val_count]. by rewrite count_sub_tag_free, IH.
Qed.

Lemma val_tag_free_ok p ps :
  tag_pattern p = true ->
  Forall val_tag_free ps -> Forall (val_ok p) ps.
Proof.
  intros Hp H. eapply Forall_impl; [exact H|].
  intros [l|v]; [done|]. by apply tag_free_self_contained.
Qed.

(** Occurrences of a tag pattern in an f-string whose values are free of
    tag beginnings, once the values at [ks] are read as literal text. *)
Lemma count_fragment p ks ps :
  tag_pattern p = true ->
  Forall val_tag_free ps ->
  lits_ok p (fuse (literal_at ks 0 ps)) = true ->
  self_contained p (fstring ps)
  /\ count_sub p (fstring ps) = lit_count p (fuse (literal_at ks 0 ps)).
Proof.
  intros Hp Hv Hl.
  assert (Forall val_tag_free (fuse (literal_at ks 0 ps))) as Hv'.
  { by apply Forall_fuse, Forall_literal_at. }
  destruct (count_fstring p _ (tag_pattern_nonempty p Hp) Hl
              (val_tag_free_ok p _ Hp Hv')) as [H1 H2].
  rewrite fstring_fuse, fstring_literal_at in H1, H2.
  split; [done|]. by rewrite H2, val_count_tag_free, Nat.add_0_r.
Qed.

(** ** The fragments of the page *)

Lemma tag_free_digits d : tag_free (digits_of_uint d) = true.
Proof. induction d; cbn [digits_of_uint tag_free]; by rewrite ?IHd. Qed.

Lemma tag_free_str_of_nat i : tag_free (str_of_nat i) = true.
Proof. apply tag_free_digits. Qed.

Lemma markup_free_inv it :
  markup_free it = true ->
  tag_free (title it) = true /\ tag_free (description it) = true
  /\ tag_free (image_path it) = true /\ tag_free (code it) = true.
Proof.
  unfold markup_free.
  intros [[[? ?]%andb_prop ?]%andb_prop ?]%andb_prop. done.
Qed.

Lemma card_parts_tag_free i it :
  markup_free it = true -> Forall val_tag_free (card_parts i it).
Proof.
  intros (Ht & Hd & Hi & Hc)%markup_free_inv.
  pose proof (tag_free_str_of_nat i).
  unfold card_parts. repeat constructor; done.
Qed.

Lemma modal_parts_tag_free lang_name lang_code i it :
  markup_free it = true ->
  tag_free lang_name = true -> tag_free lang_code = true ->
  Forall val_tag_free (modal_parts lang_name lang_code i it).
Proof.
  intros (Ht & Hd & Hi & Hc)%markup_free_inv Hn Hl.
  pose proof (tag_free_str_of_nat i).
  unfold modal_parts. repeat constructor; done.
Qed.

Lemma detect_language_tag_free ulower d :
  tag_free (detect_language ulower d).1 = true
  /\ tag_free (detect_language ulower d).2 = true.
Proof.
  unfold detect_language.
  repeat match goal with |- context [if ?c then _ else _] => destruct c end;
    done.
Qed.

(** Occurrences in the page skeleton around its four values. *)
Lemma count_page p page_title gallery_items_html modals_html prism :
  p <> [] ->
  lits_ok p
    (page_parts page_title gallery_items_html modals_html prism) = true ->
  self_contained p page_title ->
  self_contained p gallery_items_html ->
  self_contained p modals_html ->
  self_contained p prism ->
  count_sub p
    (fstring (page_parts page_title gallery_items_html modals_html prism))
  = (lit_count p
       (page_parts page_title gallery_items_html modals_html prism)
     + (count_sub p page_title + count_sub p page_title
        + count_sub p gallery_items_html
        + count_sub p modals_html + count_sub p prism))%nat.
Proof.
  intros Hne Hl Ht Hg Hm Hp.
  destruct (count_fstring p _ Hne Hl) as [_ ->].
  - unfold page_parts. repeat constructor; done.
  - f_equal. unfold page_parts. cbn [val_count]. lia.
Qed.

Section TwoItems.
Variable ulower : pystr -> N -> pystr -> pystr.
Variables (d : pystr) (a b : item).
Hypothesis Ha : markup_free a = true.
Hypothesis Hb : markup_free b = true.

(** Occurrences of a tag pattern in the page of two items with fields
    free of tag beginnings, from the occurrences in the literal texts of
    the skeleton and of the fragments. *)
Lemma count_page_two p skel c1 c2 m1 m2 :
  tag_pattern p = true ->
  (forall t g m pr, lits_ok p (page_parts t g m pr) = true
                    /\ lit_count p (page_parts t g m pr) = skel) ->
  (forall ln, lits_ok p (fuse (literal_at [] 0 (title_parts ln))) = true
              /\ lit_count p (fuse (literal_at [] 0 (title_parts ln)))
                 = 0%nat) ->
  (forall lc, lits_ok p (fuse (literal_at [] 0 (prism_parts lc))) = true
              /\ lit_count p (fuse (literal_at [] 0 (prism_parts lc)))
                 = 0%nat) ->
  (forall it,
     lits_ok p (fuse (literal_at [1; 9]%nat 0 (card_parts 1 it))) = true
     /\ lit_count p (fuse (literal_at [1; 9]%nat 0 (card_parts 1 it)))
        = c1) ->
  (forall it,
     lits_ok p (fuse (literal_at [1; 9]%nat 0 (card_parts 2 it))) = true
     /\ lit_count p (fuse (literal_at [1; 9]%nat 0 (card_parts 2 it)))
        = c2) ->
  (forall ln lc it,
     lits_ok p
       (fuse (literal_at [1; 5; 7]%nat 0 (modal_parts ln lc 1 it))) = true
     /\ lit_count p
          (fuse (literal_at [1; 5; 7]%nat 0 (modal_parts ln lc 1 it))) = m1) ->
  (forall ln lc it,
     lits_ok p
       (fuse (literal_at [1; 5; 7]%nat 0 (modal_parts ln lc 2 it))) = true
     /\ lit_count p
          (fuse (literal_at [1; 5; 7]%nat 0 (modal_parts ln lc 2 it))) = m2) ->
  count_sub p (fstring (card_parts 1 a)) = c1
  /\ count_sub p (fstring (card_parts 2 b)) = c2
  /\ (forall ln lc, tag_free ln = true -> tag_free lc = true ->
        count_sub p (fstring (modal_parts ln lc 1 a)) = m1
        /\ count_sub p (fstring (modal_parts ln lc 2 b)) = m2)
  /\ count_sub p (generate_html_content ulower d [a; b])
     = (skel + c1 + c2 + m1 + m2)%nat.
Proof.
  intros Hc Hskel Htitle Hprism Hc1 Hc2 Hm1 Hm2.
  destruct (count_fragment p [1; 9]%nat (card_parts 1 a)
              Hc (card_parts_tag_free 1 a Ha) (proj1 (Hc1 a))) as [Sc1 Cc1].
  destruct (count_fragment p [1; 9]%nat (card_parts 2 b)
              Hc (card_parts_tag_free 2 b Hb) (proj1 (Hc2 b))) as [Sc2 Cc2].
  rewrite (proj2 (Hc1 a)) in Cc1. rewrite (proj2 (Hc2 b)) in Cc2.
  assert (forall ln lc, tag_free ln = true -> tag_free lc = true ->
            (self_contained p (fstring (modal_parts ln lc 1 a))
             /\ count_sub p (fstring (modal_parts ln lc 1 a)) = m1)
            /\ (self_contained p (fstring (modal_parts ln lc 2 b))
                /\ count_sub p (fstring (modal_parts ln lc 2 b)) = m2))
    as Hmod.
  { intros ln lc Hn Hl. split.
    - rewrite <- (proj2 (Hm1 ln lc a)).
      apply count_fragment; [done|by apply modal_parts_tag_free|apply Hm1].
    - rewrite <- (proj2 (Hm2 ln lc b)).
      apply count_fragment; [done|by apply modal_parts_tag_free|apply Hm2]. }
  split; [done|]. split; [done|]. split.
  { intros ln lc Hn Hl. destruct (Hmod ln lc Hn Hl) as [[_ ?] [_ ?]]. done. }
  unfold generate_html_content.
  destruct (detect_language_tag_free ulower d) as [Hn Hl].
  destruct (detect_language ulower d) as [ln lc]. cbn [fst snd] in Hn, Hl.
  rewrite gallery_items_of_concat, modals_of_concat.
  cbn [enumerate map concat]. rewrite !app_nil_r.
  destruct (Hmod ln lc Hn Hl) as [[Sm1 Cm1] [Sm2 Cm2]].
  destruct (count_fragment p [] (title_parts ln)) as [St Ct];
    [done|unfold title_parts; repeat constructor; done|apply Htitle|].
  destruct (count_fragment p [] (prism_parts lc)) as [Sp Cp];
    [done|unfold prism_parts; repeat constructor; done|apply Hprism|].
  rewrite (proj2 (Htitle ln)) in Ct. rewrite (proj2 (Hprism lc)) in Cp.
  pose proof (tag_pattern_nonempty p Hc) as Hne.
  rewrite count_page; try done;
    try (apply self_contained_app; done); [|apply Hskel].
  rewrite (proj2 (Hskel _ _ _ _)), Ct, Cp.
  rewrite !count_sub_app by done. lia.
Qed.
End TwoItems.

Local Ltac literal_side := intros; split; vm_compute; reflexivity.

(** The four counts of [count_page_two] for the pattern [pat]. *)
Local Ltac page_counts ulower d a b Ha Hb pat n c1 c2 m1 m2 H :=
  unshelve epose proof
    (count_page_two ulower d a b Ha Hb pat n c1 c2 m1 m2 _ _ _ _ _ _ _ _)
    as H;
  [vm_compute; reflexivity|literal_side..|].

(** C9 (amended).  For two items whose fields hold no beginning of a
    [div] or [button] tag and do not end in a part of one, the page
    holds exactly two card openings and two detail view
    openings; the trigger with identifier 1 occurs once, in the card of
    the first item, and the detail view opening with identifier 1 occurs
    once, in the detail view of the first item; likewise for identifier 2
    and the second item. *)
Theorem C9_two_cards_two_views ulower d a b :
  markup_free a = true ->
  markup_free b = true ->
  let page := generate_html_content ulower d [a; b] in
  let lang_name := (detect_language ulower d).1 in
  let lang_code := (detect_language ulower d).2 in
  count_sub CARD_OPEN page = 2%nat
  /\ count_sub MODAL_OPEN page = 2%nat
  /\ (count_sub (trigger_tag 1) page = 1%nat
      /\ count_sub (trigger_tag 1) (fstring (card_parts 1 a)) = 1%nat
      /\ count_sub (modal_tag 1) page = 1%nat
      /\ count_sub (modal_tag 1)
           (fstring (modal_parts lang_name lang_code 1 a)) = 1%nat)
  /\ (count_sub (trigger_tag 2) page = 1%nat
      /\ count_sub (trigger_tag 2) (fstring (card_parts 2 b)) = 1%nat
      /\ count_sub (modal_tag 2) page = 1%nat
      /\ count_sub (modal_tag 2)
           (fstring (modal_parts lang_name lang_code 2 b)) = 1%nat).
Proof.
  intros Ha Hb page lang_name lang_code. subst page lang_name lang_code.
  destruct (detect_language_tag_free ulower d) as [Hn Hl].
  page_counts ulower d a b Ha Hb CARD_OPEN 0%nat 1%nat 1%nat 0%nat 0%nat Hc.
  page_counts ulower d a b Ha Hb MODAL_OPEN 0%nat 0%nat 0%nat 1%nat 1%nat Hm.
  page_counts ulower d a b Ha Hb (trigger_tag 1)
    0%nat 1%nat 0%nat 0%nat 0%nat Ht1.
  page_counts ulower d a b Ha Hb (trigger_tag 2)
    0%nat 0%nat 1%nat 0%nat 0%nat Ht2.
  page_counts ulower d a b Ha Hb (modal_tag 1)
    0%nat 0%nat 0%nat 1%nat 0%nat Hm1.
  page_counts ulower d a b Ha Hb (modal_tag 2)
    0%nat 0%nat 0%nat 0%nat 1%nat Hm2.
  destruct Hc as (_ & _ & _ & Hc). destruct Hm as (_ & _ & _ & Hm).
  destruct Ht1 as (Ht1c & _ & _ & Ht1). destruct Ht2 as (_ & Ht2c & _ & Ht2).
  destruct Hm1 as (_ & _ & Hm1c & Hm1). destruct Hm2 as (_ & _ & Hm2c & Hm2).
  destruct (Hm1c _ _ Hn Hl) as [Hm1a _].
  destruct (Hm2c _ _ Hn Hl) as [_ Hm2b].
  split; [exact Hc|]. split; [exact Hm|].
  split; (split; [|split; [|split]]).
  - exact Ht1.
  - exact Ht1c.
  - exact Hm1.
  - exact Hm1a.
  - exact Ht2.
  - exact Ht2c.
  - exact Hm2.
  - exact Hm2b.
Qed.

Lemma C9_witness :
  count_sub CARD_OPEN
    (generate_html_content ulower_id (py "R code") [item_a; item_b]) = 2%nat
  /\ count_sub (trigger_tag 2)
       (generate_html_content ulower_id (py "R code") [item_a; item_b])
     = 1%nat.
Proof.
  assert (markup_free item_a = true) as Ha by (vm_compute; reflexivity).
  assert (markup_free item_b = true) as Hb by (vm_compute; reflexivity).
  pose proof (C9_two_cards_two_views ulower_id (py "R code") item_a item_b
                Ha Hb) as H.
  cbv zeta in H. destruct H as (H1 & _ & _ & H2 & _).
  exact (conj H1 H2).
Defined.

(** C9 (as stated) fails: the description of [item_markup] is the text
    of a card opening, which the page repeats unescaped, so the page of
    these two items holds three card openings. *)
Lemma C9_counterexample :
  length [item_markup; item_b] = 2%nat
  /\ count_sub CARD_OPEN
       (generate_html_content ulower_id (py "R code") [item_markup; item_b])
     = 3%nat.
Proof. split; vm_compute; reflexivity. Qed.

(** ** What a match of the two patterns holds *)

Lemma star_greedy_inv {A} cl s (k : pystr -> option A) r :
  star_greedy cl s k = Some r ->
  exists a b, s = a ++ b /\ forallb (in_class cl) a = true /\ k b = Some r.
Proof.
  induction s as [|c s IH]; cbn [star_greedy].
  - intros H. by exists [], [].
  - destruct (in_class cl c) eqn:Hc; [|intros H; by exists [], (c :: s)].
    destruct (star_greedy cl s k) as [r'|]; cbn [orelse].
    + intros [= ->]. destruct (IH eq_refl) as (a & b & -> & Ha & Hk).
      exists (c :: a), b. cbn [forallb app]. by rewrite Hc.
    + intros H. by exists [], (c :: s).
Qed.

(** Lazy repetition stops at the first length after which the
    continuation succeeds. *)
Lemma star_lazy_inv {A} cl s (k : pystr -> option A) r :
  star_lazy cl s k = Some r ->
  exists a b, s = a ++ b /\ forallb (in_class cl) a = true /\ k b = Some r
    /\ forall a1 a2, a = a1 ++ a2 -> a2 <> [] -> k (a2 ++ b) = None.
Proof.
  induction s as [|c s IH].
  - cbn [star_lazy]. destruct (k []) eqn:Hk; cbn [orelse]; [|done].
    intros [= ->]. exists [], []. repeat split; try done.
    intros a1 a2 H. by destruct a1, a2.
  - cbn [star_lazy]. destruct (k (c :: s)) eqn:Hk; cbn [orelse].
    + intros [= ->]. exists [], (c :: s). repeat split; try done.
      intros a1 a2 H. by destruct a1, a2.
    + destruct (in_class cl c) eqn:Hc; [|done].
      intros (a & b & -> & Ha & Hb & Hmin)%IH.
      exists (c :: a), b. cbn [forallb app]. rewrite Hc.
      repeat split; try done.
      intros [|x a1] a2; cbn [app].
      * by intros <- _.
      * intros [= _ ->] H2. by apply (Hmin a1 a2).
Qed.

Lemma search_inv r s m :
  search r s = Some m ->
  exists pre s', s = pre ++ s' /\ match_at r s' = Some m.
Proof.
  induction s as [|c s IH]; cbn [search].
  - destruct (match_at r []) eqn:H; [|done]. intros [= ->]. by exists [], [].
  - destruct (match_at r (c :: s)) eqn:H.
    + intros [= ->]. by exists [], (c :: s).
    + intros (pre & s' & -> & Hm)%IH. by exists (c :: pre), s'.
Qed.

(** A match of the comment pattern: group 1 is a non-empty piece of one
    line, followed by a line break. *)
Lemma comment_re_sound s m :
  match_at comment_re s = Some m ->
  exists u g v, s = u ++ g ++ NL :: v /\ m = MatchObj (Some g)
                /\ g <> [] /\ forallb (in_class CDot) g = true.
Proof.
  unfold match_at, comment_re. cbn [cat run].
  destruct (strip_prefix FENCE s) as [s1|] eqn:H1; [|done].
  apply strip_prefix_Some in H1 as ->.
  intros (tag & s2 & _ & H2 & Hk)%run_fence_tags_inv.
  apply strip_prefix_Some in H2 as ->.
  apply star_greedy_inv in Hk as (w1 & s3 & -> & _ & Hk).
  destruct (strip_prefix [NL] s3) as [s4|] eqn:H3; [|done].
  apply strip_prefix_Some in H3 as ->.
  destruct (strip_prefix [HASH] s4) as [s5|] eqn:H4; [|done].
  apply strip_prefix_Some in H4 as ->.
  apply star_greedy_inv in Hk as (w2 & s6 & -> & _ & Hk).
  destruct s6 as [|c s6]; [done|].
  destruct (in_class CDot c) eqn:Hc; [|done].
  apply star_lazy_inv in Hk as (a & b & -> & Ha & Hk & _).
  destruct (strip_prefix [NL] b) as [v|] eqn:H5; [|done].
  apply strip_prefix_Some in H5 as ->.
  injection Hk as <-.
  exists (FENCE ++ tag ++ w1 ++ [NL] ++ [HASH] ++ w2), (c :: a), v.
  repeat split.
  - by rewrite <- !app_assoc.
  - do 2 f_equal. apply (take_group (c :: a) (NL :: v)).
  - done.
  - cbn [forallb]. by rewrite Hc, Ha.
Qed.

Lemma startswith_app_r p (s x : pystr) :
  startswith p s = true -> startswith p (s ++ x) = true.
Proof. intros [t ->]%startswith_inv. rewrite <- app_assoc. apply startswith_app. Qed.

Lemma contains_false_split p (a : pystr) :
  (forall a1 a2, a = a1 ++ a2 -> startswith p a2 = false) ->
  contains p a = false.
Proof.
  induction a as [|c a IH]; intros H; cbn [contains].
  - by rewrite (H [] [] eq_refl).
  - rewrite (H [] (c :: a) eq_refl). cbn [orb].
    apply IH. intros a1 a2 ->. by apply (H (c :: a1)).
Qed.

(** A match of the code pattern: group 1 is followed by a line break and
    a fence, and no line break followed by a fence begins in it. *)
Lemma code_re_sound s m :
  match_at code_re s = Some m ->
  exists u g v, s = u ++ g ++ NL :: FENCE ++ v /\ m = MatchObj (Some g)
                /\ contains (NL :: FENCE) g = false.
Proof.
  unfold match_at, code_re. cbn [cat run].
  destruct (strip_prefix FENCE s) as [s1|] eqn:H1; [|done].
  apply strip_prefix_Some in H1 as ->.
  intros (tag & s2 & _ & H2 & Hk)%run_fence_tags_inv.
  apply strip_prefix_Some in H2 as ->.
  apply star_greedy_inv in Hk as (w1 & s3 & -> & _ & Hk).
  destruct (strip_prefix [NL] s3) as [s4|] eqn:H3; [|done].
  apply strip_prefix_Some in H3 as ->.
  apply star_lazy_inv in Hk as (a & b & -> & Ha & Hk & Hmin).
  destruct (strip_prefix [NL] b) as [b1|] eqn:H5; [|done].
  apply strip_prefix_Some in H5 as ->.
  destruct (strip_prefix FENCE b1) as [v|] eqn:H6; [|done].
  apply strip_prefix_Some in H6 as ->.
  injection Hk as <-.
  exists (FENCE ++ tag ++ w1 ++ [NL]), a, v.
  repeat split.
  - by rewrite <- !app_assoc.
  - do 2 f_equal. apply (take_group a (NL :: FENCE ++ v)).
  - apply contains_false_split. intros a1 a2 ->.
    destruct a2 as [|x a2]; [done|].
    apply not_true_is_false. intros Hs.
    apply (startswith_app_r _ _ ([NL] ++ FENCE ++ v)) in Hs.
    apply startswith_inv in Hs as [t Ht].
    specialize (Hmin a1 (x :: a2) eq_refl ltac:(done)).
    rewrite Ht in Hmin. cbn [app strip_prefix] in Hmin.
    rewrite N.eqb_refl in Hmin.
    change (strip_prefix FENCE (FENCE ++ t)) with (Some t) in Hmin.
    done.
Qed.

(** ** What [strip] leaves *)

Lemma lstrip_suffix (s : pystr) :
  exists w, s = w ++ lstrip s /\ forallb isspace w = true.
Proof.
  induction s as [|c s (w & Hs & Hw)]; [by exists []|].
  cbn [lstrip]. destruct (isspace c) eqn:Hc; [|by exists []].
  exists (c :: w). cbn [app forallb]. by rewrite Hc, <- Hs.
Qed.

Lemma rstrip_prefix (s : pystr) :
  exists w, s = rstrip s ++ w /\ forallb isspace w = true.
Proof.
  induction s as [|c s (w & Hs & Hw)]; [by exists []|].
  cbn [rstrip]. destruct (rstrip s) as [|x r].
  - cbn [app] in Hs. subst w. destruct (isspace c) eqn:Hc.
    + exists (c :: s). cbn [app forallb]. by rewrite Hc.
    + by exists s.
  - exists w. cbn [app]. by rewrite Hs at 1.
Qed.

Lemma lstrip_head (s : pystr) c :
  head (lstrip s) = Some c -> isspace c = false.
Proof.
  induction s as [|x s IH]; [done|]. cbn [lstrip].
  destruct (isspace x) eqn:Hx; [done|]. by intros [= <-].
Qed.

Lemma rstrip_last (s : pystr) c :
  last (rstrip s) = Some c -> isspace c = false.
Proof.
  induction s as [|x s IH]; [done|]. cbn [rstrip].
  destruct (rstrip s) as [|y r].
  - destruct (isspace x) eqn:Hx; [done|]. by intros [= <-].
  - done.
Qed.

Lemma rstrip_head (s : pystr) c :
  head s = Some c -> isspace c = false -> head (rstrip s) = Some c.
Proof.
  destruct s as [|x s]; [done|]. cbn [head rstrip]. intros [= ->] Hc.
  destruct (rstrip s); [by rewrite Hc|done].
Qed.

Lemma strip_head (s : pystr) c : head (strip s) = Some c -> isspace c = false.
Proof.
  unfold strip. destruct (lstrip s) as [|x t] eqn:E; [done|].
  assert (isspace x = false) as Hx by (apply (lstrip_head s); by rewrite E).
  by rewrite (rstrip_head (x :: t) x eq_refl Hx); intros [= <-].
Qed.

Lemma strip_last (s : pystr) c : last (strip s) = Some c -> isspace c = false.
Proof. apply rstrip_last. Qed.

(** [strip] returns a piece of its argument. *)
Lemma strip_inside (s : pystr) :
  exists w1 w2, s = w1 ++ strip s ++ w2.
Proof.
  destruct (lstrip_suffix s) as (w1 & H1 & _).
  destruct (rstrip_prefix (lstrip s)) as (w2 & H2 & _).
  exists w1, w2. unfold strip. by rewrite <- H2.
Qed.

Lemma contains_inside p (a s b : pystr) :
  contains p s = true -> contains p (a ++ s ++ b) = true.
Proof.
  intros (x & y & ->)%contains_inv.
  replace (a ++ (x ++ p ++ y) ++ b) with ((a ++ x) ++ p ++ (y ++ b))
    by (by rewrite <- !app_assoc).
  apply contains_app.
Qed.

Lemma contains_self (s : pystr) : contains s s = true.
Proof.
  rewrite <- (app_nil_r s) at 2. apply (contains_app s [] []).
Qed.

Lemma strip_contained (s : pystr) : contains (strip s) s = true.
Proof.
  destruct (strip_inside s) as (w1 & w2 & E).
  remember (strip s) as t eqn:Ht. clear Ht. rewrite E. apply contains_app.
Qed.

Lemma contains_strip p (s : pystr) :
  contains p s = false -> contains p (strip s) = false.
Proof.
  intros H. apply not_true_is_false. intros Hs.
  destruct (strip_inside s) as (w1 & w2 & E).
  apply (contains_inside p w1 _ w2) in Hs. rewrite <- E in Hs. congruence.
Qed.

Lemma forallb_strip (f : N -> bool) (s : pystr) :
  forallb f s = true -> forallb f (strip s) = true.
Proof.
  destruct (strip_inside s) as (w1 & w2 & E). rewrite E at 1.
  rewrite !forallb_app. by intros [_ [? _]%andb_prop]%andb_prop.
Qed.

Lemma forallb_dot_no_nl (s : pystr) :
  forallb (in_class CDot) s = true -> NL ∉ s.
Proof.
  induction s as [|c s IH]; cbn [forallb in_class].
  - intros _. apply not_elem_of_nil.
  - intros [Hc Hs]%andb_prop. apply not_elem_of_cons. split; [|by apply IH].
    apply negb_true_iff, N.eqb_neq in Hc. congruence.
Qed.

(** ** The results of the two extractions on any text *)

(** Group 1 takes part in every match of the two patterns, so the
    results are never the exception of a missing group. *)
Lemma description_of_content_cases content :
  description_of_content content = inr FALLBACK
  \/ exists u g v,
       content = u ++ g ++ NL :: v /\ g <> []
       /\ forallb (in_class CDot) g = true
       /\ description_of_content content = inr (strip g).
Proof.
  unfold description_of_content.
  destruct (search comment_re content) as [m|] eqn:Hs; [|by left].
  right. apply search_inv in Hs as (pre & s' & -> & Hm).
  apply comment_re_sound in Hm as (u & g & v & -> & -> & Hg & Hd).
  exists (pre ++ u), g, v. by rewrite <- app_assoc.
Qed.

Lemma code_of_content_cases content :
  code_of_content content = inr []
  \/ exists u g v,
       content = u ++ g ++ NL :: FENCE ++ v
       /\ contains (NL :: FENCE) g = false
       /\ code_of_content content = inr (strip g).
Proof.
  unfold code_of_content.
  destruct (search code_re content) as [m|] eqn:Hs; [|by left].
  right. apply search_inv in Hs as (pre & s' & -> & Hm).
  apply code_re_sound in Hm as (u & g & v & -> & -> & Hg).
  exists (pre ++ u), g, v. by rewrite <- app_assoc.
Qed.

(** X1.  A file that can be read never makes the extractions print a
    diagnostic: in every match of the two patterns the group takes part,
    so the handler of the [try] block is reached by a failing read
    only. *)
Theorem X1_readable_file_no_diagnostic fs p content :
  read_text fs p = inr content ->
  (extract_description_from_md fs p).2 = []
  /\ (extract_code_from_md fs p).2 = []
  /\ (exists d, description_of_content content = inr d)
  /\ (exists c, code_of_content content = inr c).
Proof.
  intros Hr. unfold extract_description_from_md, extract_code_from_md.
  rewrite Hr.
  destruct (description_of_content_cases content) as [Hd|(?&g&?&_&_&_&Hd)];
    destruct (code_of_content_cases content) as [Hc|(?&g'&?&_&_&Hc)];
    rewrite Hd, Hc; cbn [snd]; repeat split; eauto.
Qed.

Lemma X1_witness :
  (extract_description_from_md (readable doc_two_blocks) doc).2 = []
  /\ (extract_code_from_md (readable doc_two_blocks) doc).2 = [].
Proof.
  destruct (X1_readable_file_no_diagnostic (readable doc_two_blocks) doc
              doc_two_blocks eq_refl) as (H1 & H2 & _).
  exact (conj H1 H2).
Defined.

(** X2.  The description returned by [extract_description_from_md] is
    one line without surrounding whitespace, whatever the file system:
    it holds no line break and neither begins nor ends with a whitespace
    character. *)
Theorem X2_description_one_trimmed_line fs p :
  let d := (extract_description_from_md fs p).1 in
  (NL ∉ d)
  /\ (forall c, head d = Some c -> isspace c = false)
  /\ (forall c, last d = Some c -> isspace c = false).
Proof.
  assert ((NL ∉ FALLBACK)
          /\ (forall c, head FALLBACK = Some c -> isspace c = false)
          /\ (forall c, last FALLBACK = Some c -> isspace c = false)) as Hf.
  { split; [|split].
    - refine (bool_decide_eq_false_1 _ _). vm_compute. reflexivity.
    - by intros c [= <-].
    - by intros c [= <-]. }
  cbv zeta. unfold extract_description_from_md.
  destruct (read_text fs p) as [e|content]; [exact Hf|].
  destruct (description_of_content_cases content)
    as [Hd|(u & g & v & _ & _ & Hg & Hd)]; rewrite Hd; [exact Hf|].
  cbn [fst]. split; [|split].
  - by apply forallb_dot_no_nl, forallb_strip.
  - apply strip_head.
  - apply strip_last.
Qed.

(** X3.  The code returned by [extract_code_from_md] neither begins nor
    ends with a whitespace character, and no line break followed by a
    fence occurs in it: the excerpt stops before the first line of the
    block that begins with a fence. *)
Theorem X3_code_trimmed_before_fence fs p :
  let c := (extract_code_from_md fs p).1 in
  (forall x, head c = Some x -> isspace x = false)
  /\ (forall x, last c = Some x -> isspace x = false)
  /\ contains (NL :: FENCE) c = false.
Proof.
  cbv zeta. unfold extract_code_from_md.
  destruct (read_text fs p) as [e|content]; [done|].
  destruct (code_of_content_cases content)
    as [Hc|(u & g & v & _ & Hg & Hc)]; rewrite Hc; [done|].
  cbn [fst]. split; [|split].
  - apply strip_head.
  - apply strip_last.
  - by apply contains_strip.
Qed.

(** X4.  The extractions return text of the file: the code is a piece of
    the content that was read, and so is the description unless it is
    the fallback. *)
Theorem X4_extracted_text_from_file fs p content :
  read_text fs p = inr content ->
  contains (extract_code_from_md fs p).1 content = true
  /\ ((extract_description_from_md fs p).1 = FALLBACK
      \/ contains (extract_description_from_md fs p).1 content = true).
Proof.
  intros Hr. unfold extract_description_from_md, extract_code_from_md.
  rewrite Hr. split.
  - destruct (code_of_content_cases content)
      as [Hc|(u & g & v & E & _ & Hc)]; rewrite Hc; cbn [fst].
    + by destruct content.
    + rewrite E. apply contains_inside, strip_contained.
  - destruct (description_of_content_cases content)
      as [Hd|(u & g & v & E & _ & _ & Hd)]; rewrite Hd; cbn [fst];
      [by left|right].
    rewrite E. apply contains_inside, strip_contained.
Qed.

Lemma X4_witness :
  contains (extract_code_from_md (readable doc_empty_block) doc).1
    doc_empty_block = true.
Proof.
  exact (proj1 (X4_extracted_text_from_file (readable doc_empty_block) doc
                  doc_empty_block eq_refl)).
Defined.

(** ** The items of a scan *)

Lemma elem_of_concat {X} (x : X) (ls : list (list X)) :
  x ∈ concat ls <-> exists l, x ∈ l /\ l ∈ ls.
Proof.
  rewrite list_elem_of_In, in_concat. split.
  - intros (l & Hl & Hx). exists l. by rewrite !list_elem_of_In.
  - intros (l & Hx & Hl). exists l. by rewrite <- !list_elem_of_In.
Qed.

Lemma diags_of_readable fs d n content :
  read_text fs (Path d n) = inr content -> diags_of fs d n = [].
Proof.
  intros Hr. unfold diags_of, extract_description_from_md,
    extract_code_from_md. rewrite Hr.
  destruct (description_of_content_cases content) as [Hd|(?&g&?&_&_&_&Hd)];
    destruct (code_of_content_cases content) as [Hc|(?&g'&?&_&_&Hc)];
    by rewrite Hd, Hc.
Qed.

Lemma diags_of_unreadable fs d n e :
  read_text fs (Path d n) = inl e ->
  diags_of fs d n = [WarnUnreadable (Path d n) e; WarnUnreadable (Path d n) e].
Proof.
  intros Hr. unfold diags_of, extract_description_from_md,
    extract_code_from_md. by rewrite Hr.
Qed.

Lemma scan_directory_item_inv fs d it :
  it ∈ (scan_directory fs d).1 ->
  exists names n,
    listdir fs d = Some names /\ n ∈ names /\ (exists x, n = x ++ EXT_MD)
    /\ stem n ++ EXT_PNG ∈ names /\ it = item_of fs d n.
Proof.
  destruct (listdir fs d) as [names|] eqn:Hl.
  - rewrite (scan_directory_items fs d names Hl). cbn [fst].
    intros (n & -> & Hn)%list_elem_of_fmap.
    apply elem_of_kept in Hn as (Hn & Hx & Hp). by exists names, n.
  - rewrite (scan_directory_missing fs d Hl). cbn [fst].
    by intros ?%elem_of_nil.
Qed.

(** X5.  The image path of every item of a scan is [../img/], the
    category name, a slash and the title followed by [.png], and the
    file of that name is in the category directory. *)
Theorem X5_image_path_of_item fs d it :
  it ∈ (scan_directory fs d).1 ->
  image_path it = py "../img/" ++ d ++ py "/" ++ title it ++ EXT_PNG
  /\ exists names, listdir fs d = Some names /\ title it ++ EXT_PNG ∈ names.
Proof.
  intros (names & n & Hl & Hn & _ & Hp & ->)%scan_directory_item_inv.
  split; [|by exists names].
  unfold item_of. cbn [image_path title]. unfold fstring.
  cbn [map concat fpart_text]. by rewrite app_nil_r.
Qed.

Lemma X5_witness :
  image_path (item_of (one_dir (py "d") names_prefix doc_plain) (py "d")
                (py "a.md"))
  = py "../img/d/a.png".
Proof.
  refine (proj1 (X5_image_path_of_item
                   (one_dir (py "d") names_prefix doc_plain) (py "d") _ _)).
  apply list_elem_of_In. vm_compute. right. left. reflexivity.
Defined.

Lemma kept_NoDup names :
  NoDup names ->
  NoDup (filter (fun n => Is_true (has_image names n)) (sorted (glob_md names))).
Proof.
  intros H. apply NoDup_filter. rewrite sorted_Permutation.
  unfold glob_md. by apply NoDup_filter.
Qed.

Lemma scan_directory_titles fs d names :
  listdir fs d = Some names ->
  map title (scan_directory fs d).1
  = map stem
      (filter (fun n => Is_true (has_image names n)) (sorted (glob_md names))).
Proof.
  intros Hl. rewrite (scan_directory_items fs d names Hl). cbn [fst].
  rewrite map_map. done.
Qed.

(** X6.  In a directory whose names are distinct and that has no entry
    named [.md], the items of a scan have distinct titles, and there are
    at most as many items as documentation files. *)
Theorem X6_titles_distinct fs d names :
  listdir fs d = Some names ->
  NoDup names ->
  EXT_MD ∉ names ->
  NoDup (map title (scan_directory fs d).1)
  /\ (length (scan_directory fs d).1 <= length (glob_md names))%nat.
Proof.
  intros Hl Hnd Hmd. split.
  - rewrite (scan_directory_titles fs d names Hl).
    apply (NoDup_fmap_2_strong stem); [|by apply kept_NoDup].
    intros n1 n2 H1 H2 Hs.
    apply elem_of_kept in H1 as (Hn1 & [x1 ->] & _).
    apply elem_of_kept in H2 as (Hn2 & [x2 ->] & _).
    rewrite !stem_md in Hs; [by subst| |].
    + intros ->. by apply Hmd.
    + intros ->. by apply Hmd.
  - rewrite (scan_directory_items fs d names Hl). cbn [fst].
    rewrite length_map.
    pose proof (length_filter (fun n => Is_true (has_image names n))
                  (sorted (glob_md names))) as H.
    by rewrite (Permutation_length (sorted_Permutation (glob_md names))) in H.
Qed.

Lemma X6_witness :
  NoDup (map title
           (scan_directory (one_dir (py "d") names_prefix doc_plain)
              (py "d")).1).
Proof.
  refine (proj1 (X6_titles_distinct (one_dir (py "d") names_prefix doc_plain)
                   (py "d") names_prefix eq_refl _ _)).
  - refine (bool_decide_eq_true_1 (NoDup names_prefix) _).
    vm_compute. reflexivity.
  - refine (bool_decide_eq_false_1 _ _). vm_compute. reflexivity.
Defined.

(** X7.  Every diagnostic of a scan reports a file of the directory
    whose read failed, with the exception of that read; when every file
    of the directory can be read the scan prints nothing. *)
Theorem X7_scan_diagnostics fs d names :
  listdir fs d = Some names ->
  (forall g, g ∈ (scan_directory fs d).2 ->
     exists n e, n ∈ names /\ read_text fs (Path d n) = inl e
                 /\ g = WarnUnreadable (Path d n) e)
  /\ ((forall n, n ∈ names -> exists c, read_text fs (Path d n) = inr c) ->
      (scan_directory fs d).2 = []).
Proof.
  intros Hl. rewrite (scan_directory_items fs d names Hl). cbn [snd].
  assert (forall g,
    g ∈ concat (map (diags_of fs d)
      (filter (fun n => Is_true (has_image names n)) (sorted (glob_md names))))
    -> exists n e, n ∈ names /\ read_text fs (Path d n) = inl e
                   /\ g = WarnUnreadable (Path d n) e) as Hg.
  { intros g (l & Hgl & (n & -> & Hn)%list_elem_of_fmap)%elem_of_concat.
    apply elem_of_kept in Hn as (Hn & _ & _).
    destruct (read_text fs (Path d n)) as [e|c] eqn:Hr.
    - rewrite (diags_of_unreadable fs d n e Hr) in Hgl.
      exists n, e. repeat split; [done..|].
      apply elem_of_cons in Hgl as [->|Hgl]; [done|].
      by apply list_elem_of_singleton in Hgl.
    - rewrite (diags_of_readable fs d n c Hr) in Hgl.
      by apply elem_of_nil in Hgl. }
  split; [exact Hg|].
  intros Hall.
  apply elem_of_nil_inv. intros g (n & e & Hn & Hr & _)%Hg.
  destruct (Hall n Hn) as [c Hc]. congruence.
Qed.

Lemma X7_witness :
  (scan_directory (one_dir (py "d") names_prefix doc_plain) (py "d")).2 = [].
Proof.
  refine (proj2 (X7_scan_diagnostics
                   (one_dir (py "d") names_prefix doc_plain) (py "d")
                   names_prefix eq_refl) _).
  intros n _. exists doc_plain. reflexivity.
Defined.

(** X21.  In a directory without an entry named [.md], the description
    and the code of every item of a scan are those that the two
    extractions return for the file of the directory named by the title
    followed by [.md]. *)
Theorem X21_item_fields_from_file fs d names it :
  listdir fs d = Some names ->
  EXT_MD ∉ names ->
  it ∈ (scan_directory fs d).1 ->
  title it ++ EXT_MD ∈ names
  /\ description it
     = (extract_description_from_md fs (Path d (title it ++ EXT_MD))).1
  /\ code it = (extract_code_from_md fs (Path d (title it ++ EXT_MD))).1.
Proof.
  intros Hl Hmd (names' & n & Hl' & Hn & [x ->] & _ & ->)%scan_directory_item_inv.
  rewrite Hl in Hl'. injection Hl' as <-.
  unfold item_of. cbn [title description code].
  rewrite stem_md; [done|]. intros ->. by apply Hmd.
Qed.

Lemma X21_witness :
  description (item_of (one_dir (py "d") names_prefix doc_plain) (py "d")
                 (py "a.md"))
  = (extract_description_from_md (one_dir (py "d") names_prefix doc_plain)
       (Path (py "d") (py "a.md"))).1.
Proof.
  refine (proj1 (proj2 (X21_item_fields_from_file
                   (one_dir (py "d") names_prefix doc_plain) (py "d")
                   names_prefix _ eq_refl _ _))).
  - refine (bool_decide_eq_false_1 _ _). vm_compute. reflexivity.
  - apply list_elem_of_In. vm_compute. right. left. reflexivity.
Defined.

(** ** The page of any number of items *)

Section AnyItems.
Variable ulower : pystr -> N -> pystr -> pystr.

(** Occurrences of a tag pattern in the fragments of a loop over items
    free of tag beginnings, from the occurrences in the literal texts of
    one fragment. *)
Lemma count_fragments (parts : nat -> item -> list fpart) p c :
  tag_pattern p = true ->
  (forall i it, markup_free it = true -> Forall val_tag_free (parts i it)) ->
  (forall i it,
     lits_ok p (fuse (literal_at [] 0 (parts i it))) = true
     /\ lit_count p (fuse (literal_at [] 0 (parts i it))) = c) ->
  forall items start,
    Forall (fun it => markup_free it = true) items ->
    self_contained p
      (concat (map (fun '(i, it) => fstring (parts i it))
                 (enumerate start items)))
    /\ count_sub p
         (concat (map (fun '(i, it) => fstring (parts i it))
                    (enumerate start items)))
       = (c * length items)%nat.
Proof.
  intros Hp Hv Hl items.
  induction items as [|it items IH]; intros start Hall.
  - cbn [enumerate map concat length]. split; [apply self_contained_nil|].
    rewrite Nat.mul_0_r. by destruct p.
  - apply Forall_cons in Hall as [Hit Hall].
    cbn [enumerate map concat length].
    destruct (IH (S start) Hall) as [IH1 IH2].
    destruct (count_fragment p [] (parts start it) Hp (Hv start it Hit)
                (proj1 (Hl start it))) as [S1 C1].
    rewrite (proj2 (Hl start it)) in C1.
    split; [by apply self_contained_app|].
    rewrite count_sub_app; [|by apply tag_pattern_nonempty|done].
    rewrite C1, IH2. lia.
Qed.

(** Occurrences of a tag pattern in the page of items free of tag
    beginnings. *)
Lemma count_page_items p skel c m d items :
  tag_pattern p = true ->
  (forall t g m pr, lits_ok p (page_parts t g m pr) = true
                    /\ lit_count p (page_parts t g m pr) = skel) ->
  (forall ln, lits_ok p (fuse (literal_at [] 0 (title_parts ln))) = true
              /\ lit_count p (fuse (literal_at [] 0 (title_parts ln)))
                 = 0%nat) ->
  (forall lc, lits_ok p (fuse (literal_at [] 0 (prism_parts lc))) = true
              /\ lit_count p (fuse (literal_at [] 0 (prism_parts lc)))
                 = 0%nat) ->
  (forall i it,
     lits_ok p (fuse (literal_at [] 0 (card_parts i it))) = true
     /\ lit_count p (fuse (literal_at [] 0 (card_parts i it))) = c) ->
  (forall ln lc i it,
     lits_ok p (fuse (literal_at [] 0 (modal_parts ln lc i it))) = true
     /\ lit_count p (fuse (literal_at [] 0 (modal_parts ln lc i it))) = m) ->
  Forall (fun it => markup_free it = true) items ->
  count_sub p (generate_html_content ulower d items)
  = (skel + c * length items + m * length items)%nat.
Proof.
  intros Hp Hskel Htitle Hprism Hc Hm Hall.
  unfold generate_html_content.
  destruct (detect_language_tag_free ulower d) as [Hn Hl].
  destruct (detect_language ulower d) as [ln lc]. cbn [fst snd] in Hn, Hl.
  rewrite gallery_items_of_concat, modals_of_concat.
  destruct (count_fragments card_parts p c Hp card_parts_tag_free Hc
              items 1 Hall) as [Sg Cg].
  destruct (count_fragments (modal_parts ln lc) p m Hp
              (fun i it H => modal_parts_tag_free ln lc i it H Hn Hl)
              (Hm ln lc) items 1 Hall) as [Sm Cm].
  destruct (count_fragment p [] (title_parts ln)) as [St Ct];
    [done|unfold title_parts; repeat constructor; done|apply Htitle|].
  destruct (count_fragment p [] (prism_parts lc)) as [Sp Cp];
    [done|unfold prism_parts; repeat constructor; done|apply Hprism|].
  rewrite (proj2 (Htitle ln)) in Ct. rewrite (proj2 (Hprism lc)) in Cp.
  pose proof (tag_pattern_nonempty p Hp) as Hne.
  rewrite count_page; try done; [|apply Hskel].
  rewrite (proj2 (Hskel _ _ _ _)), Ct, Cp, Cg, Cm. lia.
Qed.

End AnyItems.

Local Ltac lit_side := intros; split; vm_compute; reflexivity.

(** X8.  For any number of items whose fields hold no beginning of a
    [div] or [button] tag, the page holds exactly as many card openings
    and as many detail view openings as there are items; the page of no
    item holds none. *)
Theorem X8_one_card_one_view_per_item ulower d items :
  Forall (fun it => markup_free it = true) items ->
  count_sub CARD_OPEN (generate_html_content ulower d items) = length items
  /\ count_sub MODAL_OPEN (generate_html_content ulower d items)
     = length items.
Proof.
  intros Hall. split.
  - rewrite (count_page_items ulower CARD_OPEN 0 1 0 d items);
      [lia|vm_compute; reflexivity|lit_side..|done].
  - rewrite (count_page_items ulower MODAL_OPEN 0 0 1 d items);
      [lia|vm_compute; reflexivity|lit_side..|done].
Qed.

Lemma X8_witness :
  count_sub CARD_OPEN
    (generate_html_content ulower_id (py "R code") [item_a; item_b; item_a])
  = 3%nat.
Proof.
  refine (proj1 (X8_one_card_one_view_per_item ulower_id (py "R code")
                   [item_a; item_b; item_a] _)).
  repeat constructor.
Defined.

(** ** Values of an f-string occur in its text *)

Lemma contains_concat p (l : pystr) ls :
  l ∈ ls -> contains p l = true -> contains p (concat ls) = true.
Proof.
  intros (l1 & l2 & ->)%list_elem_of_split Hp.
  rewrite concat_app. cbn [concat]. by apply contains_inside.
Qed.

Lemma contains_fstring ps k q :
  ps !! k = Some q -> contains (fpart_text q) (fstring ps) = true.
Proof.
  intros Hk. unfold fstring.
  apply (contains_concat _ (fpart_text q)); [|apply contains_self].
  apply list_elem_of_fmap. exists q. split; [done|].
  by apply list_elem_of_lookup_2 in Hk.
Qed.

Lemma contains_fstring_in p ps k v :
  ps !! k = Some (FVal v) -> contains p v = true ->
  contains p (fstring ps) = true.
Proof.
  intros Hk Hp. unfold fstring.
  apply (contains_concat _ v); [|done].
  apply list_elem_of_fmap. exists (FVal v). split; [done|].
  by apply list_elem_of_lookup_2 in Hk.
Qed.

Lemma enumerate_elem {X} (x : X) l start :
  x ∈ l -> exists i, (i, x) ∈ enumerate start l.
Proof.
  revert start. induction l as [|y l IH]; intros start.
  - by intros ?%elem_of_nil.
  - intros [->|Hx]%elem_of_cons; cbn [enumerate].
    + exists start. left.
    + destruct (IH (S start) Hx) as [i Hi]. exists i. by right.
Qed.

Lemma contains_fragments (parts : nat -> item -> list fpart) p items it :
  it ∈ items ->
  (forall i, contains p (fstring (parts i it)) = true) ->
  contains p
    (concat (map (fun '(i, x) => fstring (parts i x)) (enumerate 1 items)))
  = true.
Proof.
  intros [i Hi]%(enumerate_elem _ _ 1%nat) Hp.
  apply (contains_concat _ (fstring (parts i it))); [|apply Hp].
  apply list_elem_of_fmap. by exists (i, it).
Qed.

(** X9.  The fields of every item are put into the page as they are,
    without escaping: the title, the description, the image path and the
    code of each item of the list occur in the page character for
    character. *)
Theorem X9_fields_verbatim ulower d items it :
  it ∈ items ->
  contains (title it) (generate_html_content ulower d items) = true
  /\ contains (description it) (generate_html_content ulower d items) = true
  /\ contains (image_path it) (generate_html_content ulower d items) = true
  /\ contains (code it) (generate_html_content ulower d items) = true.
Proof.
  intros Hit. unfold generate_html_content.
  destruct (detect_language ulower d) as [ln lc].
  rewrite gallery_items_of_concat, modals_of_concat.
  assert (forall p,
    contains p (concat (map (fun '(i, x) => fstring (card_parts i x))
                          (enumerate 1 items))) = true ->
    contains p
      (fstring (page_parts (fstring (title_parts ln))
         (concat (map (fun '(i, x) => fstring (card_parts i x))
                    (enumerate 1 items)))
         (concat (map (fun '(i, x) => fstring (modal_parts ln lc i x))
                    (enumerate 1 items)))
         (fstring (prism_parts lc)))) = true) as Hcards.
  { intros p. by apply (contains_fstring_in p _ 5%nat). }
  assert (forall p,
    contains p (concat (map (fun '(i, x) => fstring (modal_parts ln lc i x))
                          (enumerate 1 items))) = true ->
    contains p
      (fstring (page_parts (fstring (title_parts ln))
         (concat (map (fun '(i, x) => fstring (card_parts i x))
                    (enumerate 1 items)))
         (concat (map (fun '(i, x) => fstring (modal_parts ln lc i x))
                    (enumerate 1 items)))
         (fstring (prism_parts lc)))) = true) as Hmodals.
  { intros p. by apply (contains_fstring_in p _ 7%nat). }
  split; [|split; [|split]].
  - apply Hcards.
    apply (contains_fragments card_parts (title it) items it Hit).
    intros i. by apply (contains_fstring (card_parts i it) 3%nat (FVal (title it))).
  - apply Hcards.
    apply (contains_fragments card_parts (description it) items it Hit).
    intros i. by apply (contains_fstring (card_parts i it) 13%nat
                         (FVal (description it))).
  - apply Hcards.
    apply (contains_fragments card_parts (image_path it) items it Hit).
    intros i. by apply (contains_fstring (card_parts i it) 5%nat
                         (FVal (image_path it))).
  - apply Hmodals.
    apply (contains_fragments (modal_parts ln lc) (code it) items it Hit).
    intros i. by apply (contains_fstring (modal_parts ln lc i it) 15%nat
                         (FVal (code it))).
Qed.

Lemma X9_witness :
  contains CARD_OPEN
    (generate_html_content ulower_id (py "R code") [item_markup; item_b])
  = true.
Proof.
  refine (proj1 (proj2 (X9_fields_verbatim ulower_id (py "R code")
                          [item_markup; item_b] item_markup _))).
  constructor.
Defined.

(** ** Writing a page *)

(** What [generate_page] does to the output directory does not depend
    on the files that are there: it writes at most one file, and what it
    prints and raises is the same whatever the directory holds. *)
Lemma generate_page_shape ulower fs d o :
  exists (w : option (pystr * pystr)) e out,
    (forall pages0,
       generate_page ulower fs pages0 d o
       = PageResult e
           (match w with Some (f, h) => <[f := h]> pages0 | None => pages0 end)
           out)
    /\ (forall f h, w = Some (f, h) ->
          h = generate_html_content ulower d (scan_directory fs d).1
          /\ can_write fs f = true /\ e = None
          /\ (scan_directory fs d).1 <> []
          /\ match o with
             | Some f' => f = f'
             | None =>
                 f = replace_char SPACE HYPHEN (lower ulower d) ++ EXT_HTML
             end).
Proof.
  unfold generate_page.
  destruct (scan_directory fs d) as [[|it items] out]; cbn [fst].
  { exists None, None, (out ++ [WarnNoItems d]). by split. }
  set (f := match o with
            | Some f => f
            | None => replace_char SPACE HYPHEN (lower ulower d) ++ EXT_HTML
            end).
  destruct (can_write fs f) eqn:Hw.
  - exists (Some (f, generate_html_content ulower d (it :: items))), None,
      (out ++ [DoneGenerated f; DoneCount (length (it :: items))]).
    split; [done|]. intros f' h [= <- <-]. repeat split; try done.
    subst f. by destruct o.
  - exists None, (Some (OSError f)), out. by split.
Qed.

Lemma generate_page_lookup ulower fs pages0 d o f :
  (scan_directory fs d).1 <> [] ->
  f = match o with
      | Some f => f
      | None => replace_char SPACE HYPHEN (lower ulower d) ++ EXT_HTML
      end ->
  can_write fs f = true ->
  pages (generate_page ulower fs pages0 d o) !! f
  = Some (generate_html_content ulower d (scan_directory fs d).1).
Proof.
  intros Hne -> Hw. unfold generate_page.
  destruct (scan_directory fs d) as [[|it items] out]; [done|].
  destruct o as [g|]; cbv beta iota zeta in *; rewrite Hw; cbn [pages fst];
    apply lookup_insert_eq.
Qed.



(** X12.  A file that [generate_page] changes when no file name is
    given has a name without a space that ends in [.html]; for a
    category name of ASCII characters it is the name in lower case with
    a hyphen for every space, followed by [.html]. *)
Theorem X12_default_file_name ulower fs pages0 d f :
  pages (generate_page ulower fs pages0 d None) !! f <> pages0 !! f ->
  (SPACE ∉ f)
  /\ endswith EXT_HTML f = true
  /\ (is_ascii d = true ->
      f = replace_char SPACE HYPHEN (map ascii_lower d) ++ EXT_HTML).
Proof.
  destruct (generate_page_shape ulower fs d None) as (w & e & out & Hg & Hw).
  rewrite (Hg pages0). cbn [pages].
  destruct w as [[f' h]|]; [|done].
  destruct (Hw f' h eq_refl) as (_ & _ & _ & _ & ->).
  intros Hf.
  destruct (decide (replace_char SPACE HYPHEN (lower ulower d) ++ EXT_HTML = f))
    as [<-|Hne]; [|by rewrite lookup_insert_ne in Hf].
  split; [|split].
  - intros [Hin|Hin]%elem_of_app.
    + unfold replace_char in Hin.
      apply list_elem_of_fmap in Hin as (c & Hc & _).
      destruct (N.eqb_spec c SPACE); [done|congruence].
    + revert Hin. refine (bool_decide_eq_false_1 _ _). vm_compute. reflexivity.
  - apply endswith_app.
  - intros Ha. by rewrite lower_ascii.
Qed.


(** ** The run *)

Lemma main_files_differ : R_CODE_HTML <> PYTHON_CODE_HTML.
Proof. done. Qed.

(** The files of a run and what it prints and raises, from the shapes of
    the two pages. *)
Lemma main_shape ulower fs :
  exists (w1 w2 : option pystr) e out,
    (forall pages0,
       main ulower fs pages0
       = MainResult e
           (match w2 with
            | Some h => <[PYTHON_CODE_HTML := h]>
            | None => id
            end
              (match w1 with
               | Some h => <[R_CODE_HTML := h]> pages0
               | None => pages0
               end))
           out).
Proof.
  unfold main.
  destruct (generate_page_shape ulower fs R_CODE (Some R_CODE_HTML))
    as (w1 & e1 & out1 & Hg1 & Hw1).
  destruct (generate_page_shape ulower fs PYTHON_CODE (Some PYTHON_CODE_HTML))
    as (w2 & e2 & out2 & Hg2 & Hw2).
  assert (exists v1 : option pystr,
    forall p : gmap pystr pystr,
      match w1 with Some (f, h) => <[f := h]> p | None => p end
      = match v1 with Some h => <[R_CODE_HTML := h]> p | None => p end)
    as [v1 Hv1].
  { destruct w1 as [[f h]|]; [|by exists None].
    destruct (Hw1 f h eq_refl) as (_ & _ & _ & _ & ->). by exists (Some h). }
  assert (exists v2 : option pystr,
    forall p : gmap pystr pystr,
      match w2 with Some (f, h) => <[f := h]> p | None => p end
      = match v2 with Some h => <[PYTHON_CODE_HTML := h]> | None => id end p)
    as [v2 Hv2].
  { destruct w2 as [[f h]|]; [|by exists None].
    destruct (Hw2 f h eq_refl) as (_ & _ & _ & _ & ->). by exists (Some h). }
  destruct e1 as [x1|].
  { exists v1, None, (Some x1), ([Starting] ++ map Line out1).
    intros p. rewrite Hg1. cbn [raised pages printed]. by rewrite Hv1. }
  destruct (listdir fs PYTHON_CODE) as [names|].
  - destruct e2 as [x2|].
    + exists v1, v2, (Some x2), (([Starting] ++ map Line out1) ++ map Line out2).
      intros p. rewrite Hg1. cbn [raised pages printed]. rewrite Hg2.
      cbn [raised pages printed]. by rewrite Hv1, Hv2.
    + exists v1, v2, None,
        ((([Starting] ++ map Line out1) ++ map Line out2) ++ [AllDone]).
      intros p. rewrite Hg1. cbn [raised pages printed]. rewrite Hg2.
      cbn [raised pages printed]. by rewrite Hv1, Hv2.
  - exists v1, None, None, (([Starting] ++ map Line out1) ++ [AllDone]).
    intros p. rewrite Hg1. cbn [raised pages printed]. by rewrite Hv1.
Qed.

(** X14.  A run changes no file of the output directory other than
    [r-code.html] and [python-code.html]. *)
Theorem X14_main_two_files ulower fs pages0 f :
  f <> R_CODE_HTML -> f <> PYTHON_CODE_HTML ->
  m_pages (main ulower fs pages0) !! f = pages0 !! f.
Proof.
  intros Hr Hp. destruct (main_shape ulower fs) as (w1 & w2 & e & out & Hm).
  rewrite Hm. cbn [m_pages].
  destruct w2 as [h2|]; cbv beta iota; unfold id;
    [rewrite (lookup_insert_ne _ _ _ _ (not_eq_sym Hp))|];
    (destruct w1 as [h1|];
       [by rewrite (lookup_insert_ne _ _ _ _ (not_eq_sym Hr))|done]).
Qed.

(** X15.  Running [main] again on the files it has left gives the same
    result: files, printed lines and exception. *)
Theorem X15_main_again ulower fs pages0 :
  main ulower fs (m_pages (main ulower fs pages0)) = main ulower fs pages0.
Proof.
  destruct (main_shape ulower fs) as (w1 & w2 & e & out & Hm).
  rewrite !Hm. cbn [m_pages]. f_equal.
  destruct w1 as [h1|], w2 as [h2|]; unfold id.
  - rewrite (insert_insert_ne _ R_CODE_HTML PYTHON_CODE_HTML)
      by apply main_files_differ.
    by rewrite !insert_insert_eq.
  - by rewrite insert_insert_eq.
  - by rewrite insert_insert_eq.
  - done.
Qed.

(** X16.  A missing [R code] directory is reported by two warnings,
    a missing [Python code] directory is passed over without a word: in
    a file system without the two directories a run writes nothing,
    raises nothing and prints the two warnings for [R code] between its
    banners. *)
Theorem X16_main_missing_directories ulower fs pages0 :
  listdir fs R_CODE = None ->
  listdir fs PYTHON_CODE = None ->
  main ulower fs pages0
  = MainResult None pages0
      [Starting; Line (WarnNoDirectory R_CODE); Line (WarnNoItems R_CODE);
       AllDone].
Proof.
  intros Hr Hp. unfold main, generate_page.
  rewrite (scan_directory_missing fs R_CODE Hr). cbn [raised pages printed].
  by rewrite Hp.
Qed.

(** X17.  When [R code] has items and [r-code.html] cannot be written,
    the exception ends the run: the page of [Python code] is not
    generated even if that directory exists, no file is changed and the
    closing banner is not printed. *)
Theorem X17_main_stops_at_failure ulower fs pages0 :
  (scan_directory fs R_CODE).1 <> [] ->
  can_write fs R_CODE_HTML = false ->
  main ulower fs pages0
  = MainResult (Some (OSError R_CODE_HTML)) pages0
      (Starting :: map Line (scan_directory fs R_CODE).2).
Proof.
  intros Hne Hw. unfold main, generate_page.
  destruct (scan_directory fs R_CODE) as [[|it items] out]; [done|].
  by rewrite Hw.
Qed.



Lemma X12_witness :
  endswith EXT_HTML (py "r-code.html") = true
  /\ py "r-code.html"
     = replace_char SPACE HYPHEN (map ascii_lower (py "R code")) ++ EXT_HTML.
Proof.
  destruct (X12_default_file_name ulower_id
              (one_dir (py "R code") names_prefix doc_plain) ∅
              (py "R code") (py "r-code.html")) as (_ & H1 & H2).
  - rewrite (generate_page_lookup ulower_id _ ∅ (py "R code") None);
      [by rewrite lookup_empty| |vm_compute; reflexivity|reflexivity].
    intros E. vm_compute in E. discriminate E.
  - split; [exact H1|]. apply H2. vm_compute. reflexivity.
Defined.

Lemma X14_witness :
  m_pages (main ulower_id (one_dir (py "R code") names_prefix doc_plain) ∅)
    !! py "index.html" = None.
Proof.
  rewrite (X14_main_two_files ulower_id
             (one_dir (py "R code") names_prefix doc_plain) ∅
             (py "index.html")).
  - apply lookup_empty.
  - intros E. vm_compute in E. discriminate E.
  - intros E. vm_compute in E. discriminate E.
Defined.

Lemma X16_witness :
  main ulower_id (readable doc_plain) ∅
  = MainResult None ∅
      [Starting; Line (WarnNoDirectory R_CODE); Line (WarnNoItems R_CODE);
       AllDone].
Proof.
  apply (X16_main_missing_directories ulower_id (readable doc_plain) ∅);
    reflexivity.
Defined.

Lemma X17_witness :
  m_raised (main ulower_id
              (read_only (py "R code") names_prefix doc_plain) ∅)
  = Some (OSError R_CODE_HTML).
Proof.
  rewrite (X17_main_stops_at_failure ulower_id
             (read_only (py "R code") names_prefix doc_plain) ∅).
  - reflexivity.
  - intros E. vm_compute in E. discriminate E.
  - reflexivity.
Defined.


(** ** Occurrences of a pattern that extends another *)

Lemma startswith_app_l h r (s : pystr) :
  startswith (h ++ r) s = true -> startswith h s = true.
Proof.
  intros [t ->]%startswith_inv. rewrite <- app_assoc. apply startswith_app.
Qed.

Lemma startswith_app_same h r (y : pystr) :
  startswith (h ++ r) (h ++ y) = startswith r y.
Proof. induction h as [|a h IH]; [done|]. cbn. by rewrite N.eqb_refl. Qed.

(** No occurrence of [h ++ r] begins in a text that keeps its
    occurrences of [h] and has none. *)
Lemma count_ext_none h r blk x :
  self_contained h blk -> count_sub h blk = 0%nat ->
  count_sub (h ++ r) (blk ++ x) = count_sub (h ++ r) x.
Proof.
  induction blk as [|c blk IH]; intros Hs Hc; [done|].
  cbn [count_sub] in Hc.
  destruct (startswith h (c :: blk)) eqn:Hh; [done|].
  change ((c :: blk) ++ x) with (c :: (blk ++ x)).
  cbn [count_sub].
  assert (startswith (h ++ r) (c :: blk ++ x) = false) as ->.
  { apply not_true_is_false. intros H%startswith_app_l.
    change (c :: blk ++ x) with ((c :: blk) ++ x) in H.
    rewrite (Hs [] (c :: blk) x eq_refl) in H by done. congruence. }
  apply IH; [by apply (self_contained_suffix h [c])|done].
Qed.

Lemma count_sub_ge h (A B : pystr) :
  h <> [] -> (1 <= count_sub h (A ++ h ++ B))%nat.
Proof.
  intros Hne. induction A as [|c A IH]; cbn [app].
  - destruct (h ++ B) as [|c s] eqn:E; [by destruct h|].
    cbn [count_sub]. rewrite <- E, startswith_app. lia.
  - cbn [count_sub]. lia.
Qed.

(** In a text that keeps its occurrences of [h] and has one, an
    occurrence of [h ++ r] begins when [r] follows that occurrence. *)
Lemma count_ext_one h r A B x :
  h <> [] -> self_contained h (A ++ h ++ B) ->
  count_sub h (A ++ h ++ B) = 1%nat ->
  count_sub (h ++ r) ((A ++ h ++ B) ++ x)
  = ((if startswith r (B ++ x) then 1 else 0) + count_sub (h ++ r) x)%nat.
Proof.
  intros Hne. induction A as [|c A IH]; intros Hs Hc.
  - cbn [app] in *. destruct h as [|a h]; [done|].
    rewrite <- app_assoc.
    change ((a :: h) ++ B) with (a :: (h ++ B)) in *.
    change ((a :: h) ++ B ++ x) with (a :: (h ++ B ++ x)).
    cbn [count_sub] in *.
    change (a :: h ++ B ++ x) with ((a :: h) ++ B ++ x).
    rewrite startswith_app_same.
    change (a :: h ++ B) with ((a :: h) ++ B) in Hc.
    rewrite startswith_app in Hc.
    rewrite app_assoc, count_ext_none; [done| |lia].
    by apply (self_contained_suffix (a :: h) [a]).
  - pose proof (count_sub_ge h A B Hne) as Hge.
    change ((c :: A) ++ h ++ B) with (c :: (A ++ h ++ B)) in *.
    cbn [count_sub] in Hc.
    destruct (startswith h (c :: A ++ h ++ B)) eqn:Hh; [lia|].
    change ((c :: A ++ h ++ B) ++ x) with (c :: ((A ++ h ++ B) ++ x)).
    cbn [count_sub].
    assert (startswith (h ++ r) (c :: (A ++ h ++ B) ++ x) = false) as ->.
    { apply not_true_is_false. intros H%startswith_app_l.
      change (c :: (A ++ h ++ B) ++ x) with ((c :: A ++ h ++ B) ++ x) in H.
      rewrite (Hs [] (c :: A ++ h ++ B) x eq_refl) in H by done.
      congruence. }
    apply IH; [by apply (self_contained_suffix h [c])|lia].
Qed.

(** ** Identifiers *)

Lemma digits_isdigit d : forallb isdigit (digits_of_uint d) = true.
Proof. induction d; cbn [digits_of_uint forallb]; by rewrite ?IHd. Qed.

Lemma digits_of_uint_inj d d' :
  digits_of_uint d = digits_of_uint d' -> d = d'.
Proof.
  revert d'. induction d; intros []; cbn [digits_of_uint]; try done;
    intros [= H]; f_equal; by apply IHd.
Qed.

Lemma str_of_nat_inj i j : str_of_nat i = str_of_nat j -> i = j.
Proof.
  unfold str_of_nat. intros H%digits_of_uint_inj.
  by rewrite <- (Unsigned.of_to i), H, Unsigned.of_to.
Qed.

(** Two runs of digits followed by the same character that is no digit
    are the same when one text begins with the other. *)
Lemma digits_sep a b q t y :
  forallb isdigit a = true -> forallb isdigit b = true ->
  isdigit q = false ->
  startswith (a ++ q :: t) (b ++ q :: y) = true -> a = b.
Proof.
  intros Ha Hb Hq. revert b Hb.
  induction a as [|u a IH]; intros [|v b] Hb; cbn [app startswith forallb] in *.
  - done.
  - apply andb_prop in Hb as [Hv _].
    intros [->%N.eqb_eq _]%andb_prop. congruence.
  - apply andb_prop in Ha as [Hu _].
    intros [->%N.eqb_eq _]%andb_prop. congruence.
  - apply andb_prop in Ha as [Hu Ha]. apply andb_prop in Hb as [Hv Hb].
    intros [->%N.eqb_eq H]%andb_prop. f_equal. by apply IH.
Qed.

Lemma identifier_match i j q t y :
  isdigit q = false ->
  startswith (str_of_nat i ++ q :: t) (str_of_nat j ++ (q :: t) ++ y)
  = bool_decide (i = j).
Proof.
  intros Hq. destruct (decide (i = j)) as [->|Hne].
  - rewrite bool_decide_eq_true_2 by done.
    rewrite app_assoc. apply startswith_app.
  - rewrite bool_decide_eq_false_2 by done.
    apply not_true_is_false. intros H. apply Hne, str_of_nat_inj.
    apply (digits_sep _ _ q t (t ++ y)); [apply digits_isdigit..|done|done].
Qed.

(** ** The value between two marks of an f-string *)

Lemma fstring_app ps qs : fstring (ps ++ qs) = fstring ps ++ fstring qs.
Proof. unfold fstring. by rewrite map_app, concat_app. Qed.

Lemma value_between_split h c ps k v :
  value_between h c ps k = Some v ->
  exists A y, fstring ps = A ++ h ++ v ++ c ++ y.
Proof.
  unfold value_between.
  destruct (ps !! k) as [[l|]|] eqn:H0; try done.
  destruct (ps !! S k) as [[|v']|] eqn:H1; try done.
  destruct (ps !! S (S k)) as [[l'|]|] eqn:H2; try done.
  destruct (endswith h l) eqn:Hl; [|done].
  destruct (startswith c l') eqn:Hl'; [|done].
  intros [= ->].
  apply endswith_inv in Hl as [X ->]. apply startswith_inv in Hl' as [Y ->].
  exists (fstring (take k ps) ++ X), (Y ++ fstring (drop (S (S (S k))) ps)).
  rewrite <- (take_drop k ps) at 1.
  rewrite (drop_S _ _ _ H0), (drop_S _ _ _ H1), (drop_S _ _ _ H2).
  rewrite fstring_app, !fstring_cons. cbn [fpart_text].
  by rewrite <- !app_assoc.
Qed.

(** Occurrences of a mark followed by the identifier [i] in the
    fragments of a loop, each of which holds the mark once, followed by
    its own identifier. *)
Lemma count_identifier_blocks h q t i (parts : nat -> item -> list fpart) k :
  tag_pattern h = true -> isdigit q = false ->
  (forall j it,
     value_between h (q :: t) (parts j it) k = Some (str_of_nat j)) ->
  (forall j it, markup_free it = true -> Forall val_tag_free (parts j it)) ->
  (forall j it,
     lits_ok h (fuse (literal_at [] 0 (parts j it))) = true
     /\ lit_count h (fuse (literal_at [] 0 (parts j it))) = 1%nat) ->
  forall items start x,
    Forall (fun it => markup_free it = true) items ->
    count_sub (h ++ str_of_nat i ++ q :: t)
      (concat (map (fun '(j, it) => fstring (parts j it))
                 (enumerate start items)) ++ x)
    = ((if (start <=? i)%nat && (i <? start + length items)%nat
        then 1 else 0)
       + count_sub (h ++ str_of_nat i ++ q :: t) x)%nat.
Proof.
  intros Hh Hq Hval Hfree Hlit items.
  induction items as [|it items IH]; intros start x Hall.
  - cbn [enumerate map concat length app].
    replace (i <? start + 0)%nat with (i <? start)%nat by (f_equal; lia).
    destruct (Nat.leb_spec start i), (Nat.ltb_spec i start); try lia; done.
  - apply Forall_cons in Hall as [Hit Hall].
    cbn [enumerate map concat length]. rewrite <- app_assoc.
    destruct (value_between_split _ _ _ _ _ (Hval start it))
      as (A & y & E).
    destruct (count_fragment h [] (parts start it) Hh (Hfree start it Hit)
                (proj1 (Hlit start it))) as [S1 C1].
    rewrite (proj2 (Hlit start it)) in C1. rewrite E in S1, C1 |- *.
    rewrite (count_ext_one h _ A _ _ (tag_pattern_nonempty h Hh) S1 C1).
    rewrite <- !app_assoc.
    rewrite (identifier_match i start q t _ Hq).
    rewrite (IH (S start) x Hall).
    destruct (decide (i = start)) as [->|Hne].
    + rewrite bool_decide_eq_true_2 by done.
      destruct (Nat.leb_spec start start), (Nat.ltb_spec start (start + S (length items))),
        (Nat.leb_spec (S start) start); try lia. done.
    + rewrite bool_decide_eq_false_2 by done.
      destruct (Nat.leb_spec start i), (Nat.ltb_spec i (start + S (length items))),
        (Nat.leb_spec (S start) i), (Nat.ltb_spec i (S start + length items));
        try lia; done.
Qed.

(** ** Identifiers in the page *)

Lemma zero_parts h ps :
  h <> [] -> lits_ok h ps = true -> lit_count h ps = 0%nat ->
  Forall (fun q => match q with
                   | FLit _ => True
                   | FVal v => self_contained h v /\ count_sub h v = 0%nat
                   end) ps ->
  self_contained h (fstring ps) /\ count_sub h (fstring ps) = 0%nat.
Proof.
  intros Hne Hl Hc Hv.
  destruct (count_fstring h ps Hne Hl) as [S C].
  { eapply Forall_impl; [exact Hv|]. intros [l|v]; [done|]. by intros [? _]. }
  split; [done|]. rewrite C, Hc. clear -Hv.
  induction Hv as [|[l|v] ps Hq Hv IH]; cbn [val_count]; [done|done|].
  destruct Hq as [_ ->]. done.
Qed.

Lemma page_split T G M P :
  fstring (page_parts T G M P)
  = fstring (take 5 (page_parts T G M P)) ++ G
    ++ fstring (take 1 (drop 6 (page_parts T G M P))) ++ M
    ++ fstring (drop 8 (page_parts T G M P)).
Proof.
  unfold page_parts. cbn [firstn skipn]. rewrite !fstring_cons.
  cbn [fpart_text]. unfold fstring. cbn [map concat].
  by rewrite ?app_nil_r, <- ?app_assoc.
Qed.

(** Occurrences in the page of a mark [h] followed by the identifier
    [i] and the character [q], when each card ([in_cards]) or each
    detail view holds the mark once, before its identifier, and the
    rest of the page does not hold it. *)
Lemma count_identifier_page ulower d items h q t i (in_cards : bool) :
  tag_pattern h = true -> isdigit q = false ->
  (forall T G M P,
     lits_ok h (take 5 (page_parts T G M P)) = true
     /\ lit_count h (take 5 (page_parts T G M P)) = 0%nat) ->
  (forall T G M P,
     lits_ok h (take 1 (drop 6 (page_parts T G M P))) = true
     /\ lit_count h (take 1 (drop 6 (page_parts T G M P))) = 0%nat) ->
  (forall T G M P,
     lits_ok h (drop 8 (page_parts T G M P)) = true
     /\ lit_count h (drop 8 (page_parts T G M P)) = 0%nat) ->
  (forall ln, lits_ok h (fuse (literal_at [] 0 (title_parts ln))) = true
              /\ lit_count h (fuse (literal_at [] 0 (title_parts ln)))
                 = 0%nat) ->
  (forall lc, lits_ok h (fuse (literal_at [] 0 (prism_parts lc))) = true
              /\ lit_count h (fuse (literal_at [] 0 (prism_parts lc)))
                 = 0%nat) ->
  (forall j it,
     lits_ok h (fuse (literal_at [] 0 (card_parts j it))) = true
     /\ lit_count h (fuse (literal_at [] 0 (card_parts j it)))
        = (if in_cards then 1 else 0)%nat) ->
  (forall ln lc j it,
     lits_ok h (fuse (literal_at [] 0 (modal_parts ln lc j it))) = true
     /\ lit_count h (fuse (literal_at [] 0 (modal_parts ln lc j it)))
        = (if in_cards then 0 else 1)%nat) ->
  (forall ln lc j it,
     (if in_cards
      then value_between h (q :: t) (card_parts j it) 8
      else value_between h (q :: t) (modal_parts ln lc j it) 4)
     = Some (str_of_nat j)) ->
  Forall (fun it => markup_free it = true) items ->
  count_sub (h ++ str_of_nat i ++ q :: t)
    (generate_html_content ulower d items)
  = (if is_identifier (length items) i then 1 else 0)%nat.
Proof.
  intros Hh Hq Hpre Hmid Hpost Htitle Hprism Hcard Hmodal Hval Hall.
  pose proof (tag_pattern_nonempty h Hh) as Hne.
  unfold generate_html_content.
  destruct (detect_language_tag_free ulower d) as [Hn Hl].
  destruct (detect_language ulower d) as [ln lc]. cbn [fst snd] in Hn, Hl.
  rewrite gallery_items_of_concat, modals_of_concat.
  destruct (count_fragment h [] (title_parts ln)) as [St Ct];
    [done|unfold title_parts; repeat constructor; done|apply Htitle|].
  destruct (count_fragment h [] (prism_parts lc)) as [Sp Cp];
    [done|unfold prism_parts; repeat constructor; done|apply Hprism|].
  rewrite (proj2 (Htitle ln)) in Ct. rewrite (proj2 (Hprism lc)) in Cp.
  set (T := fstring (title_parts ln)) in *.
  set (P := fstring (prism_parts lc)) in *.
  set (G := concat (map (fun '(j, it) => fstring (card_parts j it))
                      (enumerate 1 items))).
  set (M := concat (map (fun '(j, it) => fstring (modal_parts ln lc j it))
                      (enumerate 1 items))).
  rewrite page_split.
  destruct (zero_parts h (take 5 (page_parts T G M P)) Hne
              (proj1 (Hpre T G M P)) (proj2 (Hpre T G M P)))
    as [S1 C1]; [unfold page_parts; cbn [firstn]; repeat constructor; done|].
  destruct (zero_parts h (take 1 (drop 6 (page_parts T G M P))) Hne
              (proj1 (Hmid T G M P)) (proj2 (Hmid T G M P)))
    as [S2 C2]; [unfold page_parts; cbn [firstn skipn]; repeat constructor|].
  destruct (zero_parts h (drop 8 (page_parts T G M P)) Hne
              (proj1 (Hpost T G M P)) (proj2 (Hpost T G M P)))
    as [S3 C3];
    [unfold page_parts; cbn [firstn skipn]; repeat constructor; done|].
  assert (count_sub (h ++ str_of_nat i ++ q :: t) [] = 0%nat) as C0.
  { by destruct h. }
  assert ((if (1 <=? i)%nat && (i <? 1 + length items)%nat
           then 1 else 0)%nat
          = (if is_identifier (length items) i then 1 else 0)%nat) as Hrange.
  { unfold is_identifier.
    destruct (Nat.leb_spec 1 i), (Nat.ltb_spec i (1 + length items)),
      (Nat.leb_spec i (length items)); try lia; done. }
  rewrite (count_ext_none h _ _ _ S1 C1).
  destruct in_cards.
  - rewrite (count_identifier_blocks h q t i card_parts 8 Hh Hq
               (Hval ln lc) card_parts_tag_free Hcard items 1 _ Hall).
    rewrite (count_ext_none h _ _ _ S2 C2).
    destruct (count_fragments (modal_parts ln lc) h 0 Hh
                (fun j it H => modal_parts_tag_free ln lc j it H Hn Hl)
                (Hmodal ln lc) items 1 Hall) as [Sm Cm].
    rewrite (count_ext_none h _ _ _ Sm Cm).
    rewrite <- (app_nil_r (fstring (drop 8 _))).
    rewrite (count_ext_none h _ _ _ S3 C3), C0, Hrange. lia.
  - destruct (count_fragments card_parts h 0 Hh card_parts_tag_free
                Hcard items 1 Hall) as [Sg Cg].
    rewrite (count_ext_none h _ _ _ Sg Cg).
    rewrite (count_ext_none h _ _ _ S2 C2).
    rewrite (count_identifier_blocks h q t i (modal_parts ln lc) 4 Hh Hq
               (Hval ln lc)
               (fun j it H => modal_parts_tag_free ln lc j it H Hn Hl)
               (Hmodal ln lc) items 1 _ Hall).
    rewrite <- (app_nil_r (fstring (drop 8 _))).
    rewrite (count_ext_none h _ _ _ S3 C3), C0, Hrange. lia.
Qed.

Lemma trigger_tag_eq i :
  trigger_tag i = TRIGGER_OPEN ++ str_of_nat i ++ TRIGGER_CLOSE.
Proof.
  unfold trigger_tag, fstring. cbn [map concat fpart_text].
  by rewrite app_nil_r.
Qed.

Lemma modal_tag_eq i : modal_tag i = MODAL_OPEN ++ str_of_nat i ++ MODAL_CLOSE.
Proof.
  unfold modal_tag, fstring. cbn [map concat fpart_text].
  by rewrite app_nil_r.
Qed.

Local Ltac side := intros; split; vm_compute; reflexivity.

(** X19.  For any number of items whose fields hold no beginning of a
    [div] or [button] tag, the identifiers pair the cards with the
    detail views: each identifier from 1 to the number of items is on
    exactly one trigger and on exactly one detail view opening of the
    page, and no other identifier is on any. *)
Theorem X19_identifiers_pair_up ulower d items i :
  Forall (fun it => markup_free it = true) items ->
  count_sub (trigger_tag i) (generate_html_content ulower d items)
  = (if is_identifier (length items) i then 1 else 0)%nat
  /\ count_sub (modal_tag i) (generate_html_content ulower d items)
     = (if is_identifier (length items) i then 1 else 0)%nat.
Proof.
  intros Hall. rewrite trigger_tag_eq, modal_tag_eq. split.
  - apply (count_identifier_page ulower d items TRIGGER_OPEN 39
             [41; 34; 62] i true);
      [vm_compute; reflexivity|reflexivity|side..| |done].
    intros. vm_compute. reflexivity.
  - apply (count_identifier_page ulower d items MODAL_OPEN 34
             (tl MODAL_CLOSE) i false);
      [vm_compute; reflexivity|reflexivity|side..| |done].
    intros. vm_compute. reflexivity.
Qed.

Lemma X19_witness :
  count_sub (trigger_tag 3)
    (generate_html_content ulower_id (py "R code") [item_a; item_b; item_a])
  = 1%nat
  /\ count_sub (modal_tag 4)
       (generate_html_content ulower_id (py "R code") [item_a; item_b; item_a])
     = 0%nat.
Proof.
  assert (Forall (fun it => markup_free it = true) [item_a; item_b; item_a])
    as H by (repeat constructor).
  split.
  - exact (proj1 (X19_identifiers_pair_up ulower_id (py "R code")
                    [item_a; item_b; item_a] 3 H)).
  - exact (proj2 (X19_identifiers_pair_up ulower_id (py "R code")
                    [item_a; item_b; item_a] 4 H)).
Defined.

(** ** The language in the page *)

(** A text between the end of one literal text and the beginning of
    another. *)
Lemma contains_between p h c a b mid :
  p = h ++ fstring mid ++ c ->
  endswith h a = true -> startswith c b = true ->
  contains p (fstring (FLit a :: mid ++ [FLit b])) = true.
Proof.
  intros -> [X ->]%endswith_inv [Y ->]%startswith_inv.
  rewrite fstring_cons, fstring_app. cbn [fpart_text].
  unfold fstring at 3. cbn [map concat fpart_text]. rewrite app_nil_r.
  replace ((X ++ h) ++ fstring mid ++ c ++ Y)
    with (X ++ (h ++ fstring mid ++ c) ++ Y) by (by rewrite <- !app_assoc).
  apply contains_app.
Qed.

Lemma contains_window p ps k n :
  contains p (fstring (take n (drop k ps))) = true ->
  contains p (fstring ps) = true.
Proof.
  intros H. rewrite <- (take_drop k ps), fstring_app.
  rewrite <- (take_drop n (drop k ps)), fstring_app.
  by apply contains_inside.
Qed.

Local Ltac pattern_eq :=
  unfold fstring, title_parts, prism_parts; cbn [map concat fpart_text];
  rewrite ?app_nil_r, <- ?app_assoc; reflexivity.

(** The text between the marks [h] and [c] in a window of three or five
    parts. *)
Local Ltac between h c :=
  match goal with
  | |- contains ?p (fstring (FLit ?a :: ?v :: FLit ?b :: nil)) = true =>
      apply (contains_between p h c a b [v])
  | |- contains ?p
         (fstring (FLit ?a :: ?v1 :: ?v2 :: ?v3 :: FLit ?b :: nil)) = true =>
      apply (contains_between p h c a b [v1; v2; v3])
  end; [pattern_eq|vm_compute; reflexivity..].

(** X20.  The page names the language that [detect_language] gives for
    the category: its title element and its heading are the language
    name followed by [Code Gallery], the script of the highlighter is
    the component of the language code, and every item has its code in
    a [code] element of the class of that language code, under a
    heading with its title and the language name. *)
Theorem X20_page_names_language ulower d items :
  let page := generate_html_content ulower d items in
  let lang_name := (detect_language ulower d).1 in
  let lang_code := (detect_language ulower d).2 in
  contains (tpl "<title>" ++ lang_name ++ tpl " Code Gallery</title>") page
    = true
  /\ contains (tpl "<h1 class=~gallery-title~>" ++ lang_name
               ++ tpl " Code Gallery</h1>") page = true
  /\ contains
       (tpl "<script src=~https://cdnjs.cloudflare.com/ajax/libs/prism/1.29.0/components/prism-"
        ++ lang_code ++ tpl ".min.js~></script>") page = true
  /\ (forall it, it ∈ items ->
        contains (tpl "<code class=~language-" ++ lang_code ++ tpl "~>"
                  ++ code it ++ tpl "</code>") page = true
        /\ contains (tpl "<h2>" ++ title it ++ tpl " - " ++ lang_name
                     ++ tpl " Code</h2>") page = true).
Proof.
  cbv zeta. unfold generate_html_content.
  destruct (detect_language ulower d) as [ln lc]. cbn [fst snd].
  rewrite gallery_items_of_concat, modals_of_concat.
  set (G := concat (map (fun '(j, it) => fstring (card_parts j it))
                      (enumerate 1 items))).
  set (M := concat (map (fun '(j, it) => fstring (modal_parts ln lc j it))
                      (enumerate 1 items))).
  split; [|split; [|split]].
  - apply (contains_window _ _ 0 3). unfold page_parts. cbn [firstn skipn].
    between (tpl "<title>") (tpl "</title>").
  - apply (contains_window _ _ 2 3). unfold page_parts. cbn [firstn skipn].
    between (tpl "<h1 class=~gallery-title~>") (tpl "</h1>").
  - replace (tpl "<script src=~https://cdnjs.cloudflare.com/ajax/libs/prism/1.29.0/components/prism-")
      with (tpl "<script src=~"
            ++ tpl "https://cdnjs.cloudflare.com/ajax/libs/prism/1.29.0/components/prism-")
      by (vm_compute; reflexivity).
    replace (tpl ".min.js~></script>")
      with (tpl ".min.js" ++ tpl "~></script>") by (vm_compute; reflexivity).
    apply (contains_window _ _ 8 3). unfold page_parts. cbn [firstn skipn].
    between (tpl "<script src=~") (tpl "~></script>").
  - intros it Hit. split.
    + apply (contains_fstring_in _ _ 7%nat M); [done|].
      apply (contains_fragments (modal_parts ln lc) _ items it Hit).
      intros j. apply (contains_window _ _ 12 5).
      unfold modal_parts. cbn [firstn skipn].
      between (tpl "<code class=~language-") (tpl "</code>").
    + apply (contains_fstring_in _ _ 7%nat M); [done|].
      apply (contains_fragments (modal_parts ln lc) _ items it Hit).
      intros j. apply (contains_window _ _ 8 5).
      unfold modal_parts. cbn [firstn skipn].
      between (tpl "<h2>") (tpl " Code</h2>").
Qed.

Lemma X20_witness :
  contains (tpl "<code class=~language-r~>x <- 1</code>")
    (generate_html_content ulower_id (py "R code") [item_a; item_b]) = true.
Proof.
  refine (proj1 (proj2 (proj2 (proj2
            (X20_page_names_language ulower_id (py "R code")
               [item_a; item_b]))) item_a _)).
  constructor.
Defined.

(** ** What a scan reads and what a run prints last *)




Lemma last_elem_of {X} (l : list X) x : last l = Some x -> x ∈ l.
Proof.
  induction l as [|y [|z l] IH]; [done| |].
  - intros [= ->]. left.
  - intros H. right. by apply IH.
Qed.

Lemma banner_not_last (out : list diag) :
  last ([Starting] ++ map Line out) <> Some AllDone.
Proof.
  intros [|(g & ? & _)%list_elem_of_fmap]%last_elem_of%elem_of_cons; done.
Qed.

(** X23.  A run prints its opening banner first, and its closing banner
    last exactly when no exception leaves it. *)
Theorem X23_main_banners ulower fs pages0 :
  head (m_printed (main ulower fs pages0)) = Some Starting
  /\ (m_raised (main ulower fs pages0) = None
      <-> last (m_printed (main ulower fs pages0)) = Some AllDone).
Proof.
  unfold main.
  destruct (raised (generate_page ulower fs pages0 R_CODE (Some R_CODE_HTML)))
    as [e1|].
  { cbn [m_printed m_raised]. split; [done|]. split; [done|].
    intros H. by apply banner_not_last in H. }
  destruct (listdir fs PYTHON_CODE) as [names|].
  - destruct (raised (generate_page ulower fs _ PYTHON_CODE _)) as [e2|];
      cbn [m_printed m_raised].
    + split; [done|]. split; [done|]. rewrite <- app_assoc, <- map_app.
      intros H. by apply banner_not_last in H.
    + split; [done|]. split; [|done]. intros _. apply last_snoc.
  - cbn [m_printed m_raised]. split; [done|]. split; [|done].
    intros _. apply last_snoc.
Qed.
